(** * TubePropertiesComp: cross-section properties of tubular beam elements

    Shallow embedding of
    [openaerostruct_v2/structures/components/tube_properties_comp.py]:
    the methods [setup], [compute] and [compute_partials] of the class
    [TubePropertiesComp].

    Number model.  The component works on numpy arrays of IEEE doubles.  The
    methods are written once over real numbers ([R]): statements about
    [compute] and [compute_partials] are about the formulas the code
    evaluates, read in exact arithmetic.  The same program text is also
    given over any arithmetic ([g_compute], [g_compute_partials]); its
    instance at IEEE binary64 gives the values the doubles take, and shows
    where rounding and overflow part from exact arithmetic.  Python integers
    (node counts, shapes, index vectors) are [Z].

    Framework model.  [add_input], [add_output] and [declare_partials]
    record the registration; the framework's own checks of names and shapes
    are not part of the source, and a statement that [setup] returns
    normally assumes what they ask for.

    Store model.  [inputs], [outputs] and [partials] are name-indexed stores
    (finite maps); reading an absent name raises [KeyError], writing binds
    the name.  The metadata of a surface is a dictionary from keys to
    integers.  The three methods thread their store through the loop over
    the lifting surfaces and may stop with an exception; this is written
    with a small state-and-exception monad. *)

From Stdlib Require Import Reals Lra Psatz.
From Stdlib Require PrimFloat Uint63.
From stdpp Require Import gmap strings list.

(** ** Exceptions and the state-and-exception monad *)

Inductive exn : Type :=
| KeyError (key : string)
| ValueError.

Inductive result (A : Type) : Type :=
| Ok (a : A)
| Raise (e : exn).
Arguments Ok {A} a.
Arguments Raise {A} e.

Definition M (S A : Type) : Type := S → S * result A.

Global Instance M_ret {S : Type} : MRet (M S) := fun A a s => (s, Ok a).

Global Instance M_bind {S : Type} : MBind (M S) := fun A B k m s =>
  match m s with
  | (s', Ok a) => k a s'
  | (s', Raise e) => (s', Raise e)
  end.

Definition lift {S A : Type} (r : result A) : M S A := fun s => (s, r).

Definition modify {S : Type} (f : S → S) : M S unit := fun s => (f s, Ok tt).

(** [for x in l: body x] *)
Fixpoint for_each {S A : Type} (l : list A) (body : A → M S unit) : M S unit :=
  match l with
  | [] => mret tt
  | x :: l' => body x;; for_each l' body
  end.

(** [d[key]] on a dictionary with string keys. *)
Definition getitem {V : Type} (d : gmap string V) (key : string) : result V :=
  match d !! key with
  | Some v => Ok v
  | None => Raise (KeyError key)
  end.

(** [d[key] = v] *)
Definition setitem {K V : Type} `{Countable K} (key : K) (v : V) :
    M (gmap K V) unit :=
  modify (insert key v).

(** ** One-dimensional numpy arrays *)

Abbreviation array := (list R).

(** [a - b] on two one-dimensional arrays, with numpy's broadcasting rule:
    equal lengths combine entry by entry, an array of length one is
    stretched to the other's length, anything else is a [ValueError]. *)
Definition np_sub (a b : array) : result array :=
  if decide (length a = length b) then Ok (zip_with Rminus a b)
  else match a, b with
       | _, [y] => Ok ((λ x, x - y)%R <$> a)
       | [x], _ => Ok ((λ y, x - y)%R <$> b)
       | _, _ => Raise ValueError
       end.

(** [a ** n] for a literal natural exponent. *)
Definition np_pow (a : array) (n : nat) : array := (λ x, x ^ n)%R <$> a.

(** [c * a], [a * c] and [a / c] for a scalar [c]. *)
Definition scalar_mul (c : R) (a : array) : array := (λ x, c * x)%R <$> a.
Definition mul_scalar (a : array) (c : R) : array := (λ x, x * c)%R <$> a.
Definition div_scalar (a : array) (c : R) : array := (λ x, x / c)%R <$> a.

(** [np.arange(n)] for an integer [n]: [0, 1, ..., n-1], empty when [n <= 0]. *)
Definition np_arange (n : Z) : list Z := Z.of_nat <$> seq 0 (Z.to_nat n).

(** ** Variable names *)

(** ['{}_tube_{}'.format(surface, name)] *)
Definition tube_name (surface name : string) : string :=
  surface +:+ "_tube_" +:+ name.

(** ['{}_element_{}'.format(surface, name)] *)
Definition element_name (surface name : string) : string :=
  surface +:+ "_element_" +:+ name.

(** ** The component *)

(** An entry of [self.metadata['lifting_surfaces']]: the name of the surface
    and its data dictionary. *)
Abbreviation surface := (string * gmap string Z)%type.

(** What [setup] registers with the framework, in call order. *)
Record component : Type := Component {
  var_inputs : list (string * Z);
  var_outputs : list (string * Z);
  subjacs : list (string * string * list Z * list Z)
}.

Definition add_input (name : string) (shape : Z) : M component unit :=
  modify (fun c => Component (var_inputs c ++ [(name, shape)])
                             (var_outputs c) (subjacs c)).

Definition add_output (name : string) (shape : Z) : M component unit :=
  modify (fun c => Component (var_inputs c)
                             (var_outputs c ++ [(name, shape)]) (subjacs c)).

Definition declare_partials (of_ wrt : string) (rows cols : list Z) :
    M component unit :=
  modify (fun c => Component (var_inputs c) (var_outputs c)
                             (subjacs c ++ [(of_, wrt, rows, cols)])).

Section methods.
Local Open Scope R_scope.

Definition setup (lifting_surfaces : list surface) : M component unit :=
  for_each lifting_surfaces (fun '(lifting_surface_name, lifting_surface_data) =>
    num_points_z_half ← lift (getitem lifting_surface_data "num_points_z_half");
    let num_points_z := (2 * num_points_z_half - 1)%Z in
    for_each ["radius"; "thickness"] (fun in_name_ =>
      let in_name := tube_name lifting_surface_name in_name_ in
      add_input in_name (num_points_z - 1)%Z);;
    for_each ["A"; "Iy"; "Iz"; "J"] (fun out_name_ =>
      let out_name := element_name lifting_surface_name out_name_ in
      add_output out_name (num_points_z - 1)%Z);;
    let arange := np_arange (num_points_z - 1)%Z in
    for_each ["A"; "Iy"; "Iz"; "J"] (fun out_name_ =>
      let out_name := element_name lifting_surface_name out_name_ in
      for_each ["radius"; "thickness"] (fun in_name_ =>
        let in_name := tube_name lifting_surface_name in_name_ in
        declare_partials out_name in_name arange arange))).

Definition compute (lifting_surfaces : list surface)
    (inputs : gmap string array) : M (gmap string array) unit :=
  for_each lifting_surfaces (fun '(lifting_surface_name, lifting_surface_data) =>
    let radius_name := tube_name lifting_surface_name "radius" in
    let thickness_name := tube_name lifting_surface_name "thickness" in
    let A_name := element_name lifting_surface_name "A" in
    let Iy_name := element_name lifting_surface_name "Iy" in
    let Iz_name := element_name lifting_surface_name "Iz" in
    let J_name := element_name lifting_surface_name "J" in
    radius ← lift (getitem inputs radius_name);
    thickness ← lift (getitem inputs thickness_name);
    r1 ← lift (np_sub radius thickness);
    r2 ← lift (getitem inputs radius_name);
    d ← lift (np_sub (np_pow r2 2) (np_pow r1 2));
    setitem A_name (scalar_mul PI d);;
    d ← lift (np_sub (np_pow r2 4) (np_pow r1 4));
    setitem Iy_name (div_scalar (scalar_mul PI d) 4);;
    d ← lift (np_sub (np_pow r2 4) (np_pow r1 4));
    setitem Iz_name (div_scalar (scalar_mul PI d) 4);;
    d ← lift (np_sub (np_pow r2 4) (np_pow r1 4));
    setitem J_name (div_scalar (scalar_mul PI d) 2)).

Definition compute_partials (lifting_surfaces : list surface)
    (inputs : gmap string array) : M (gmap (string * string) array) unit :=
  let dr1_dr := 1 in
  let dr2_dr := 1 in
  let dr1_dt := -1 in
  let dr2_dt := 0 in
  for_each lifting_surfaces (fun '(lifting_surface_name, lifting_surface_data) =>
    let radius_name := tube_name lifting_surface_name "radius" in
    let thickness_name := tube_name lifting_surface_name "thickness" in
    let A_name := element_name lifting_surface_name "A" in
    let Iy_name := element_name lifting_surface_name "Iy" in
    let Iz_name := element_name lifting_surface_name "Iz" in
    let J_name := element_name lifting_surface_name "J" in
    radius ← lift (getitem inputs radius_name);
    thickness ← lift (getitem inputs thickness_name);
    r1 ← lift (np_sub radius thickness);
    r2 ← lift (getitem inputs radius_name);
    d ← lift (np_sub (mul_scalar r2 dr2_dr) (mul_scalar r1 dr1_dr));
    setitem (A_name, radius_name) (scalar_mul (2 * PI) d);;
    d ← lift (np_sub (mul_scalar r2 dr2_dt) (mul_scalar r1 dr1_dt));
    setitem (A_name, thickness_name) (scalar_mul (2 * PI) d);;
    d ← lift (np_sub (mul_scalar (np_pow r2 3) dr2_dr) (mul_scalar (np_pow r1 3) dr1_dr));
    setitem (Iy_name, radius_name) (scalar_mul PI d);;
    d ← lift (np_sub (mul_scalar (np_pow r2 3) dr2_dt) (mul_scalar (np_pow r1 3) dr1_dt));
    setitem (Iy_name, thickness_name) (scalar_mul PI d);;
    d ← lift (np_sub (mul_scalar (np_pow r2 3) dr2_dr) (mul_scalar (np_pow r1 3) dr1_dr));
    setitem (Iz_name, radius_name) (scalar_mul PI d);;
    d ← lift (np_sub (mul_scalar (np_pow r2 3) dr2_dt) (mul_scalar (np_pow r1 3) dr1_dt));
    setitem (Iz_name, thickness_name) (scalar_mul PI d);;
    d ← lift (np_sub (mul_scalar (np_pow r2 3) dr2_dr) (mul_scalar (np_pow r1 3) dr1_dr));
    setitem (J_name, radius_name) (scalar_mul (2 * PI) d);;
    d ← lift (np_sub (mul_scalar (np_pow r2 3) dr2_dt) (mul_scalar (np_pow r1 3) dr1_dt));
    setitem (J_name, thickness_name) (scalar_mul (2 * PI) d)).

End methods.

(** ** The run script [assignment/prob3ab.py] *)

(** [numpy.max(a)]: the largest entry; an empty array is a [ValueError]. *)
Definition np_max (a : array) : result R :=
  match a with
  | [] => Raise ValueError
  | x :: a' => Ok (foldl Rmax x a')
  end.

(** The two lines that build the thickness from the radii [r] of the mesh:
    [thickness = r / 10] and then [thickness[:] = numpy.max((thickness))]. *)
Definition uniform_thickness (r : array) : result array :=
  let thickness := div_scalar r 10 in
  match np_max thickness with
  | Ok m => Ok (replicate (length thickness) m)
  | Raise e => Raise e
  end.

(** ** Vocabulary of the statements *)

Section vocabulary.
Local Open Scope R_scope.

(** What one entry of each output array is, as a function of that entry's
    radius and thickness, in the shape the source evaluates it. *)
Definition area (r t : R) : R := PI * (r ^ 2 - (r - t) ^ 2).
Definition inertia (r t : R) : R := PI * (r ^ 4 - (r - t) ^ 4) / 4.
Definition polar (r t : R) : R := PI * (r ^ 4 - (r - t) ^ 4) / 2.

Definition darea_dr (r t : R) : R := 2 * PI * (r * 1 - (r - t) * 1).
Definition darea_dt (r t : R) : R := 2 * PI * (r * 0 - (r - t) * -1).
Definition dinertia_dr (r t : R) : R := PI * (r ^ 3 * 1 - (r - t) ^ 3 * 1).
Definition dinertia_dt (r t : R) : R := PI * (r ^ 3 * 0 - (r - t) ^ 3 * -1).
Definition dpolar_dr (r t : R) : R := 2 * PI * (r ^ 3 * 1 - (r - t) ^ 3 * 1).
Definition dpolar_dt (r t : R) : R := 2 * PI * (r ^ 3 * 0 - (r - t) ^ 3 * -1).

(** The names of the two inputs of every listed surface are bound in
    [inputs], to arrays of one common length. *)
Definition well_shaped (lifting_surfaces : list surface)
    (inputs : gmap string array) : Prop :=
  ∀ name data, (name, data) ∈ lifting_surfaces →
    ∃ radius thickness,
      inputs !! tube_name name "radius" = Some radius ∧
      inputs !! tube_name name "thickness" = Some thickness ∧
      length radius = length thickness.

(** The length [setup] gives every variable of a surface. *)
Definition n_elements (data : gmap string Z) : Z :=
  2 * default 0%Z (data !! "num_points_z_half") - 2.

(** [store[key][i]] when the name is bound and the index is in range. *)
Definition entry_of {K : Type} `{Countable K} (store : gmap K array)
    (key : K) (i : nat) : option R :=
  store !! key ≫= (.!! i).

(** [inputs[name][i] = x], for an index in range. *)
Definition set_entry (name : string) (i : nat) (x : R)
    (inputs : gmap string array) : gmap string array :=
  alter (λ a, <[i:=x]> a) name inputs.

(** One entry of an output, and of a stored partial, read as a number after
    running the method on a fresh store. *)
Definition output_entry (lifting_surfaces : list surface)
    (inputs : gmap string array) (key : string) (i : nat) : R :=
  default 0 (entry_of (compute lifting_surfaces inputs ∅).1 key i).

Definition partial_entry (lifting_surfaces : list surface)
    (inputs : gmap string array) (key : string * string) (i : nat) : R :=
  default 0 (entry_of (compute_partials lifting_surfaces inputs ∅).1 key i).

End vocabulary.

(** ** A running example: one surface of three half-span nodes *)

Definition wing : list surface := [("wing", {["num_points_z_half" := 3%Z]})].

Definition wing_inputs (radius thickness : array) : gmap string array :=
  {["wing_tube_radius" := radius; "wing_tube_thickness" := thickness]}.

(** ** The program text in any arithmetic *)

(** What the two evaluation methods need from the numbers they work on:
    the literals, [np.pi], and the four operations of the source.  The
    methods above are the instance at exact real arithmetic
    ([compute_exact], [compute_partials_exact]); the instance [binary64]
    gives the values numpy's float64 computes. *)
Class arithmetic (T : Type) : Type := Arithmetic {
  ar_lit : Z → T;
  ar_pi : T;
  ar_sub : T → T → T;
  ar_mul : T → T → T;
  ar_div : T → T → T;
  ar_pow : T → nat → T
}.

Declare Scope ar_scope.
Delimit Scope ar_scope with ar.
Notation "x ⊖ y" := (ar_sub x y) (at level 50, left associativity) : ar_scope.
Notation "x ⊗ y" := (ar_mul x y) (at level 40, left associativity) : ar_scope.
Notation "x ⊘ y" := (ar_div x y) (at level 40, left associativity) : ar_scope.
Notation "x ^^ n" := (ar_pow x n) (at level 30, right associativity) : ar_scope.

Section generic.
Context {T : Type} `{arithmetic T}.
Local Open Scope ar_scope.

Definition g_np_sub (a b : list T) : result (list T) :=
  if decide (length a = length b) then Ok (zip_with ar_sub a b)
  else match a, b with
       | _, [y] => Ok ((λ x, x ⊖ y) <$> a)
       | [x], _ => Ok ((λ y, x ⊖ y) <$> b)
       | _, _ => Raise ValueError
       end.

Definition g_np_pow (a : list T) (n : nat) : list T := (λ x, x ^^ n) <$> a.
Definition g_scalar_mul (c : T) (a : list T) : list T := (λ x, c ⊗ x) <$> a.
Definition g_mul_scalar (a : list T) (c : T) : list T := (λ x, x ⊗ c) <$> a.
Definition g_div_scalar (a : list T) (c : T) : list T := (λ x, x ⊘ c) <$> a.

Definition g_compute (lifting_surfaces : list surface)
    (inputs : gmap string (list T)) : M (gmap string (list T)) unit :=
  for_each lifting_surfaces (fun '(lifting_surface_name, lifting_surface_data) =>
    let radius_name := tube_name lifting_surface_name "radius" in
    let thickness_name := tube_name lifting_surface_name "thickness" in
    let A_name := element_name lifting_surface_name "A" in
    let Iy_name := element_name lifting_surface_name "Iy" in
    let Iz_name := element_name lifting_surface_name "Iz" in
    let J_name := element_name lifting_surface_name "J" in
    radius ← lift (getitem inputs radius_name);
    thickness ← lift (getitem inputs thickness_name);
    r1 ← lift (g_np_sub radius thickness);
    r2 ← lift (getitem inputs radius_name);
    d ← lift (g_np_sub (g_np_pow r2 2) (g_np_pow r1 2));
    setitem A_name (g_scalar_mul ar_pi d);;
    d ← lift (g_np_sub (g_np_pow r2 4) (g_np_pow r1 4));
    setitem Iy_name (g_div_scalar (g_scalar_mul ar_pi d) (ar_lit 4));;
    d ← lift (g_np_sub (g_np_pow r2 4) (g_np_pow r1 4));
    setitem Iz_name (g_div_scalar (g_scalar_mul ar_pi d) (ar_lit 4));;
    d ← lift (g_np_sub (g_np_pow r2 4) (g_np_pow r1 4));
    setitem J_name (g_div_scalar (g_scalar_mul ar_pi d) (ar_lit 2))).

Definition g_compute_partials (lifting_surfaces : list surface)
    (inputs : gmap string (list T)) : M (gmap (string * string) (list T)) unit :=
  let dr1_dr := ar_lit 1 in
  let dr2_dr := ar_lit 1 in
  let dr1_dt := ar_lit (-1) in
  let dr2_dt := ar_lit 0 in
  for_each lifting_surfaces (fun '(lifting_surface_name, lifting_surface_data) =>
    let radius_name := tube_name lifting_surface_name "radius" in
    let thickness_name := tube_name lifting_surface_name "thickness" in
    let A_name := element_name lifting_surface_name "A" in
    let Iy_name := element_name lifting_surface_name "Iy" in
    let Iz_name := element_name lifting_surface_name "Iz" in
    let J_name := element_name lifting_surface_name "J" in
    radius ← lift (getitem inputs radius_name);
    thickness ← lift (getitem inputs thickness_name);
    r1 ← lift (g_np_sub radius thickness);
    r2 ← lift (getitem inputs radius_name);
    d ← lift (g_np_sub (g_mul_scalar r2 dr2_dr) (g_mul_scalar r1 dr1_dr));
    setitem (A_name, radius_name) (g_scalar_mul (ar_lit 2 ⊗ ar_pi) d);;
    d ← lift (g_np_sub (g_mul_scalar r2 dr2_dt) (g_mul_scalar r1 dr1_dt));
    setitem (A_name, thickness_name) (g_scalar_mul (ar_lit 2 ⊗ ar_pi) d);;
    d ← lift (g_np_sub (g_mul_scalar (g_np_pow r2 3) dr2_dr) (g_mul_scalar (g_np_pow r1 3) dr1_dr));
    setitem (Iy_name, radius_name) (g_scalar_mul ar_pi d);;
    d ← lift (g_np_sub (g_mul_scalar (g_np_pow r2 3) dr2_dt) (g_mul_scalar (g_np_pow r1 3) dr1_dt));
    setitem (Iy_name, thickness_name) (g_scalar_mul ar_pi d);;
    d ← lift (g_np_sub (g_mul_scalar (g_np_pow r2 3) dr2_dr) (g_mul_scalar (g_np_pow r1 3) dr1_dr));
    setitem (Iz_name, radius_name) (g_scalar_mul ar_pi d);;
    d ← lift (g_np_sub (g_mul_scalar (g_np_pow r2 3) dr2_dt) (g_mul_scalar (g_np_pow r1 3) dr1_dt));
    setitem (Iz_name, thickness_name) (g_scalar_mul ar_pi d);;
    d ← lift (g_np_sub (g_mul_scalar (g_np_pow r2 3) dr2_dr) (g_mul_scalar (g_np_pow r1 3) dr1_dr));
    setitem (J_name, radius_name) (g_scalar_mul (ar_lit 2 ⊗ ar_pi) d);;
    d ← lift (g_np_sub (g_mul_scalar (g_np_pow r2 3) dr2_dt) (g_mul_scalar (g_np_pow r1 3) dr1_dt));
    setitem (J_name, thickness_name) (g_scalar_mul (ar_lit 2 ⊗ ar_pi) d)).

(** [store[key][i]] *)
Definition g_entry_of {K : Type} `{Countable K} (store : gmap K (list T))
    (key : K) (i : nat) : option T :=
  store !! key ≫= (.!! i).



End generic.

(** Exact arithmetic on the reals. *)
Global Instance exact : arithmetic R := Arithmetic R IZR PI Rminus Rmult Rdiv pow.

(** IEEE 754 binary64, the float64 of numpy.  A literal is the double of
    that integer; [x ** n] is written as the product [x * (x * ... * 1)],
    which is what numpy computes for the square; for the exponents 3 and 4
    numpy calls the C library's [pow], and the statements about [binary64]
    below use only what both give alike: squares, the difference of two
    equal powers, and overflow to infinity. *)
Definition lit64 (z : Z) : PrimFloat.float :=
  match z with
  | Z0 => PrimFloat.zero
  | Zpos _ => PrimFloat.of_uint63 (Uint63.of_Z z)
  | Zneg p => PrimFloat.opp (PrimFloat.of_uint63 (Uint63.of_Z (Zpos p)))
  end.

Fixpoint pow64 (x : PrimFloat.float) (n : nat) : PrimFloat.float :=
  match n with
  | O => PrimFloat.one
  | S n' => PrimFloat.mul x (pow64 x n')
  end.

Section binary64.
Import PrimFloat.
Local Open Scope float_scope.

(** [np.pi], the double nearest to pi: 3.141592653589793. *)
Definition pi64 : float := 0x1.921fb54442d18p+1.

End binary64.

Global Instance binary64 : arithmetic PrimFloat.float :=
  Arithmetic PrimFloat.float lit64 pi64
    PrimFloat.sub PrimFloat.mul PrimFloat.div pow64.

Definition wing_inputs64 (radius thickness : list PrimFloat.float) :
    gmap string (list PrimFloat.float) :=
  {["wing_tube_radius" := radius; "wing_tube_thickness" := thickness]}.

(** ** Names built by [format] do not collide *)

Section names.

Lemma list_ascii_of_string_app (s1 s2 : string) :
  String.list_ascii_of_string (s1 +:+ s2)
  = String.list_ascii_of_string s1 ++ String.list_ascii_of_string s2.
Proof. induction s1 as [|c s1 IH]; simpl; [done | by rewrite IH]. Qed.

Lemma list_ascii_of_string_inj (s1 s2 : string) :
  String.list_ascii_of_string s1 = String.list_ascii_of_string s2 → s1 = s2.
Proof.
  intros E. rewrite <- (String.string_of_list_ascii_of_string s1).
  rewrite <- (String.string_of_list_ascii_of_string s2). by rewrite E.
Qed.

(** Reading both sides of an equation between suffixed names backwards. *)
Lemma append_eq_rev (s1 s2 u v : string) :
  s1 +:+ u = s2 +:+ v →
  rev (String.list_ascii_of_string u) ++ rev (String.list_ascii_of_string s1)
  = rev (String.list_ascii_of_string v) ++ rev (String.list_ascii_of_string s2).
Proof.
  intros E. apply (f_equal String.list_ascii_of_string) in E.
  rewrite !list_ascii_of_string_app in E.
  apply (f_equal (@rev _)) in E. by rewrite !rev_app_distr in E.
Qed.

Lemma append_inj_r (s1 s2 u : string) : s1 +:+ u = s2 +:+ u → s1 = s2.
Proof.
  intros E%append_eq_rev. apply app_inv_head in E.
  apply list_ascii_of_string_inj.
  rewrite <- (rev_involutive (String.list_ascii_of_string s1)).
  rewrite <- (rev_involutive (String.list_ascii_of_string s2)). by rewrite E.
Qed.

Lemma tube_name_inj (s1 s2 n : string) :
  tube_name s1 n = tube_name s2 n → s1 = s2.
Proof. unfold tube_name. apply append_inj_r. Qed.

Lemma element_name_inj (s1 s2 n : string) :
  element_name s1 n = element_name s2 n → s1 = s2.
Proof. unfold element_name. apply append_inj_r. Qed.

Lemma tube_name_radius_thickness (s1 s2 : string) :
  tube_name s1 "radius" ≠ tube_name s2 "thickness".
Proof. unfold tube_name. intros E%append_eq_rev. simpl in E. discriminate. Qed.

(** Two input names agree only for the same surface and the same input. *)
Lemma tube_name_eq (s1 s2 k1 k2 : string) :
  k1 ∈ ["radius"; "thickness"] → k2 ∈ ["radius"; "thickness"] →
  tube_name s1 k1 = tube_name s2 k2 → s1 = s2 ∧ k1 = k2.
Proof.
  intros H1 H2 E.
  assert (k1 = k2) as ->.
  { unfold tube_name in E. apply append_eq_rev in E.
    set_unfold in H1; set_unfold in H2.
    destruct H1 as [?|[?|[]]], H2 as [?|[?|[]]]; subst;
      simpl in E; try done; discriminate. }
  split; [by eapply tube_name_inj | done].
Qed.

(** Two output names agree only for the same surface and the same output. *)
Lemma element_name_eq (s1 s2 k1 k2 : string) :
  k1 ∈ ["A"; "Iy"; "Iz"; "J"] → k2 ∈ ["A"; "Iy"; "Iz"; "J"] →
  element_name s1 k1 = element_name s2 k2 → s1 = s2 ∧ k1 = k2.
Proof.
  intros H1 H2 E.
  assert (k1 = k2) as ->.
  { unfold element_name in E. apply append_eq_rev in E.
    set_unfold in H1; set_unfold in H2.
    destruct H1 as [?|[?|[?|[?|[]]]]], H2 as [?|[?|[?|[?|[]]]]]; subst;
      simpl in E; try done; discriminate. }
  split; [by eapply element_name_inj | done].
Qed.

End names.

(** ** Running the loop *)

Section loop.
Context {S A : Type}.
Implicit Types (l : list A) (body : A → M S unit) (s : S).

Lemma for_each_app l1 l2 body s :
  for_each (l1 ++ l2) body s =
  match for_each l1 body s with
  | (s', Ok _) => for_each l2 body s'
  | (s', Raise e) => (s', Raise e)
  end.
Proof.
  revert s. induction l1 as [|x l1 IH]; intros s; simpl; [done|].
  unfold mbind, M_bind. destruct (body x s) as [s' [[]|e]]; [apply IH | done].
Qed.

Lemma for_each_singleton x body s s' :
  body x s = (s', Ok tt) → for_each [x] body s = (s', Ok tt).
Proof. intros E. simpl. unfold mbind, M_bind. by rewrite E. Qed.

End loop.

(** ** Array identities *)

Section arrays.
Local Open Scope R_scope.
Implicit Types (a b radius thickness : array).

Lemma np_sub_same_length a b :
  length a = length b → np_sub a b = Ok (zip_with Rminus a b).
Proof. intros E. unfold np_sub. by case_decide. Qed.

Lemma np_sub_mismatch a b :
  length a ≠ length b → length a ≠ 1%nat → length b ≠ 1%nat →
  np_sub a b = Raise ValueError.
Proof.
  intros Hne Ha Hb. unfold np_sub. case_decide; [done|].
  by destruct a as [|x [|x' a]], b as [|y [|y' b]].
Qed.

(** Every array the two methods store has this shape. *)
Lemma elementwise_zip (f1 f2 g : R → R) radius thickness :
  g <$> zip_with Rminus (f1 <$> radius) (f2 <$> zip_with Rminus radius thickness)
  = zip_with (λ r t, g (f1 r - f2 (r - t))) radius thickness.
Proof.
  revert thickness.
  induction radius as [|r radius IH]; intros [|t thickness]; simpl; try done.
  by rewrite IH.
Qed.

Lemma elementwise_length (f1 f2 : R → R) radius thickness :
  length radius = length thickness →
  length (f1 <$> radius) = length (f2 <$> zip_with Rminus radius thickness).
Proof. intros E. by rewrite !length_fmap, length_zip_with_l_eq. Qed.

End arrays.

(** ** What [compute] stores *)

Ltac mem := repeat first [apply list_elem_of_here | apply list_elem_of_further].

Ltac name_ne :=
  let E := fresh "E" in
  intros E; apply element_name_eq in E as [? ?]; [congruence | mem ..].

Section compute_facts.
Local Open Scope R_scope.
Implicit Types (surfaces : list surface) (inputs outputs : gmap string array).

Lemma well_shaped_app surfaces1 surfaces2 inputs :
  well_shaped (surfaces1 ++ surfaces2) inputs ↔
  well_shaped surfaces1 inputs ∧ well_shaped surfaces2 inputs.
Proof.
  unfold well_shaped. split.
  - intros Hws. split; intros name data Hin; apply (Hws name data);
      apply elem_of_app; auto.
  - intros [H1 H2] name data [Hin|Hin]%elem_of_app; eauto.
Qed.

Lemma compute_app surfaces1 surfaces2 inputs outputs :
  compute (surfaces1 ++ surfaces2) inputs outputs =
  match compute surfaces1 inputs outputs with
  | (outputs', Ok _) => compute surfaces2 inputs outputs'
  | (outputs', Raise e) => (outputs', Raise e)
  end.
Proof. apply for_each_app. Qed.

(** One pass of the loop body on a surface whose inputs have one length. *)
Lemma compute_surface name data inputs outputs radius thickness :
  inputs !! tube_name name "radius" = Some radius →
  inputs !! tube_name name "thickness" = Some thickness →
  length radius = length thickness →
  compute [(name, data)] inputs outputs =
  (<[element_name name "J" := zip_with polar radius thickness]>
     (<[element_name name "Iz" := zip_with inertia radius thickness]>
        (<[element_name name "Iy" := zip_with inertia radius thickness]>
           (<[element_name name "A" := zip_with area radius thickness]> outputs))),
   Ok tt).
Proof.
  intros Hr Ht Hlen. apply for_each_singleton.
  unfold mbind, M_bind, lift, getitem, setitem, modify. rewrite Hr, Ht.
  rewrite (np_sub_same_length radius thickness Hlen).
  unfold np_pow.
  rewrite !(np_sub_same_length _ _ (elementwise_length _ _ _ _ Hlen)).
  unfold div_scalar, scalar_mul.
  rewrite <- !list_fmap_compose.
  by rewrite !elementwise_zip.
Qed.

Lemma compute_ok surfaces inputs outputs0 :
  well_shaped surfaces inputs →
  ∃ outputs, compute surfaces inputs outputs0 = (outputs, Ok tt) ∧
    ∀ name data radius thickness, (name, data) ∈ surfaces →
      inputs !! tube_name name "radius" = Some radius →
      inputs !! tube_name name "thickness" = Some thickness →
      outputs !! element_name name "A" = Some (zip_with area radius thickness) ∧
      outputs !! element_name name "Iy" = Some (zip_with inertia radius thickness) ∧
      outputs !! element_name name "Iz" = Some (zip_with inertia radius thickness) ∧
      outputs !! element_name name "J" = Some (zip_with polar radius thickness).
Proof.
  induction surfaces as [|[name' data'] surfaces IH] using rev_ind; intros Hws.
  { exists outputs0. split; [done|]. intros ???? []%elem_of_nil. }
  apply well_shaped_app in Hws as [Hws Hlast].
  destruct (IH Hws) as (outputs1 & Hrun & Hget).
  destruct (Hlast name' data') as (radius' & thickness' & Hr' & Ht' & Hlen');
    [mem|].
  eexists. split.
  { rewrite compute_app, Hrun. by apply compute_surface. }
  intros name data radius thickness Hin Hr Ht.
  destruct (decide (name = name')) as [->|Hne].
  - assert (radius = radius') as -> by congruence.
    assert (thickness = thickness') as -> by congruence.
    repeat split.
    + rewrite !lookup_insert_ne by name_ne. by rewrite lookup_insert_eq.
    + rewrite !lookup_insert_ne by name_ne. by rewrite lookup_insert_eq.
    + rewrite !lookup_insert_ne by name_ne. by rewrite lookup_insert_eq.
    + by rewrite lookup_insert_eq.
  - assert ((name, data) ∈ surfaces) as Hin'.
    { apply elem_of_app in Hin as [|Hin]; [done|].
      apply list_elem_of_singleton in Hin. congruence. }
    rewrite !lookup_insert_ne by name_ne. by eapply Hget.
Qed.

(** Whatever the inputs are, a pass of the loop body that returns normally
    has stored one and the same array under the names of [Iy] and [Iz]. *)
Lemma compute_surface_inv name data inputs outputs outputs' :
  compute [(name, data)] inputs outputs = (outputs', Ok tt) →
  ∃ a iy j,
    outputs' = <[element_name name "J" := j]>
                 (<[element_name name "Iz" := iy]>
                    (<[element_name name "Iy" := iy]>
                       (<[element_name name "A" := a]> outputs))).
Proof.
  unfold compute. simpl. unfold mbind, M_bind, lift, getitem, setitem, modify.
  destruct (inputs !! tube_name name "radius") as [radius|]; [|done].
  destruct (inputs !! tube_name name "thickness") as [thickness|]; [|done].
  destruct (np_sub radius thickness) as [r1|]; [|done].
  destruct (np_sub (np_pow radius 2) (np_pow r1 2)) as [d2|]; [|done].
  destruct (np_sub (np_pow radius 4) (np_pow r1 4)) as [d4|]; [|done].
  intros [= <-]. eauto.
Qed.

(** The subtraction [radius - thickness] is the first thing that can fail
    in a pass of the loop body; nothing has been stored by then. *)
Lemma compute_surface_mismatch name data surfaces inputs outputs radius thickness :
  inputs !! tube_name name "radius" = Some radius →
  inputs !! tube_name name "thickness" = Some thickness →
  length radius ≠ length thickness →
  length radius ≠ 1%nat → length thickness ≠ 1%nat →
  compute ((name, data) :: surfaces) inputs outputs = (outputs, Raise ValueError).
Proof.
  intros Hr Ht Hne H1 H2. unfold compute. simpl.
  unfold mbind, M_bind, lift, getitem. rewrite Hr, Ht.
  by rewrite (np_sub_mismatch radius thickness).
Qed.




End compute_facts.

(** ** What [compute_partials] stores *)

Ltac pair_ne :=
  let E := fresh "E" in
  let E1 := fresh "E" in
  let E2 := fresh "E" in
  intros E;
  pose proof (f_equal fst E) as E1; pose proof (f_equal snd E) as E2;
  simpl in E1, E2;
  apply element_name_eq in E1 as [? ?];
  [apply tube_name_eq in E2 as [? ?]; [congruence | mem ..] | mem ..].

Section compute_partials_facts.
Local Open Scope R_scope.
Implicit Types (surfaces : list surface) (inputs : gmap string array).
Implicit Types (partials : gmap (string * string) array).

Lemma compute_partials_app surfaces1 surfaces2 inputs partials :
  compute_partials (surfaces1 ++ surfaces2) inputs partials =
  match compute_partials surfaces1 inputs partials with
  | (partials', Ok _) => compute_partials surfaces2 inputs partials'
  | (partials', Raise e) => (partials', Raise e)
  end.
Proof. apply for_each_app. Qed.

Lemma compute_partials_surface name data inputs partials radius thickness :
  let radius_name := tube_name name "radius" in
  let thickness_name := tube_name name "thickness" in
  inputs !! radius_name = Some radius →
  inputs !! thickness_name = Some thickness →
  length radius = length thickness →
  compute_partials [(name, data)] inputs partials =
  (<[(element_name name "J", thickness_name) := zip_with dpolar_dt radius thickness]>
  (<[(element_name name "J", radius_name) := zip_with dpolar_dr radius thickness]>
  (<[(element_name name "Iz", thickness_name) := zip_with dinertia_dt radius thickness]>
  (<[(element_name name "Iz", radius_name) := zip_with dinertia_dr radius thickness]>
  (<[(element_name name "Iy", thickness_name) := zip_with dinertia_dt radius thickness]>
  (<[(element_name name "Iy", radius_name) := zip_with dinertia_dr radius thickness]>
  (<[(element_name name "A", thickness_name) := zip_with darea_dt radius thickness]>
  (<[(element_name name "A", radius_name) := zip_with darea_dr radius thickness]>
     partials))))))),
   Ok tt).
Proof.
  intros radius_name thickness_name Hr Ht Hlen. apply for_each_singleton.
  unfold mbind, M_bind, lift, getitem, setitem, modify.
  fold radius_name thickness_name. rewrite Hr, Ht.
  rewrite (np_sub_same_length radius thickness Hlen).
  unfold np_pow, mul_scalar, scalar_mul.
  rewrite <- !list_fmap_compose.
  rewrite !(np_sub_same_length _ _ (elementwise_length _ _ _ _ Hlen)).
  by rewrite !elementwise_zip.
Qed.

Lemma compute_partials_ok surfaces inputs partials0 :
  well_shaped surfaces inputs →
  ∃ partials, compute_partials surfaces inputs partials0 = (partials, Ok tt) ∧
    ∀ name data radius thickness, (name, data) ∈ surfaces →
      let radius_name := tube_name name "radius" in
      let thickness_name := tube_name name "thickness" in
      inputs !! radius_name = Some radius →
      inputs !! thickness_name = Some thickness →
      partials !! (element_name name "A", radius_name)
        = Some (zip_with darea_dr radius thickness) ∧
      partials !! (element_name name "A", thickness_name)
        = Some (zip_with darea_dt radius thickness) ∧
      partials !! (element_name name "Iy", radius_name)
        = Some (zip_with dinertia_dr radius thickness) ∧
      partials !! (element_name name "Iy", thickness_name)
        = Some (zip_with dinertia_dt radius thickness) ∧
      partials !! (element_name name "Iz", radius_name)
        = Some (zip_with dinertia_dr radius thickness) ∧
      partials !! (element_name name "Iz", thickness_name)
        = Some (zip_with dinertia_dt radius thickness) ∧
      partials !! (element_name name "J", radius_name)
        = Some (zip_with dpolar_dr radius thickness) ∧
      partials !! (element_name name "J", thickness_name)
        = Some (zip_with dpolar_dt radius thickness).
Proof.
  induction surfaces as [|[name' data'] surfaces IH] using rev_ind; intros Hws.
  { exists partials0. split; [done|]. intros ???? []%elem_of_nil. }
  apply well_shaped_app in Hws as [Hws Hlast].
  destruct (IH Hws) as (partials1 & Hrun & Hget).
  destruct (Hlast name' data') as (radius' & thickness' & Hr' & Ht' & Hlen');
    [mem|].
  eexists. split.
  { rewrite compute_partials_app, Hrun. by apply compute_partials_surface. }
  intros name data radius thickness Hin radius_name thickness_name Hr Ht.
  subst radius_name thickness_name.
  destruct (decide (name = name')) as [->|Hne].
  - assert (radius = radius') as -> by congruence.
    assert (thickness = thickness') as -> by congruence.
    repeat split;
      (rewrite ?lookup_insert_ne by pair_ne; by rewrite lookup_insert_eq).
  - assert ((name, data) ∈ surfaces) as Hin'.
    { apply elem_of_app in Hin as [|Hin]; [done|].
      apply list_elem_of_singleton in Hin. congruence. }
    rewrite !lookup_insert_ne by pair_ne. by eapply Hget.
Qed.

End compute_partials_facts.

(** ** What [setup] registers *)

Section setup_facts.
Implicit Types (surfaces : list surface) (c : component).

Lemma np_arange_lookup (n : Z) (k : nat) :
  np_arange n !! k
  = if decide (Z.of_nat k < n)%Z then Some (Z.of_nat k) else None.
Proof.
  unfold np_arange. rewrite list_lookup_fmap. case_decide.
  - rewrite lookup_seq_lt by lia. done.
  - rewrite lookup_seq_ge by lia. done.
Qed.

Lemma setup_surface name data c :
  is_Some (data !! "num_points_z_half") →
  let n := n_elements data in
  let diagonal := np_arange n in
  setup [(name, data)] c =
  (Component
     (var_inputs c ++
        [(tube_name name "radius", n); (tube_name name "thickness", n)])
     (var_outputs c ++
        [(element_name name "A", n); (element_name name "Iy", n);
         (element_name name "Iz", n); (element_name name "J", n)])
     (subjacs c ++
        [(element_name name "A", tube_name name "radius", diagonal, diagonal);
         (element_name name "A", tube_name name "thickness", diagonal, diagonal);
         (element_name name "Iy", tube_name name "radius", diagonal, diagonal);
         (element_name name "Iy", tube_name name "thickness", diagonal, diagonal);
         (element_name name "Iz", tube_name name "radius", diagonal, diagonal);
         (element_name name "Iz", tube_name name "thickness", diagonal, diagonal);
         (element_name name "J", tube_name name "radius", diagonal, diagonal);
         (element_name name "J", tube_name name "thickness", diagonal, diagonal)]),
   Ok tt).
Proof.
  intros [h Hh] n diagonal. subst n diagonal. unfold n_elements, setup.
  simpl. unfold mbind, M_bind, lift, getitem. rewrite Hh. simpl.
  replace (2 * h - 1 - 1)%Z with (2 * h - 2)%Z by lia.
  by rewrite <- !app_assoc.
Qed.

Lemma setup_cons name data surfaces c :
  setup ((name, data) :: surfaces) c =
  match setup [(name, data)] c with
  | (c', Ok _) => setup surfaces c'
  | (c', Raise e) => (c', Raise e)
  end.
Proof. apply (for_each_app [(name, data)] surfaces). Qed.

(** With the node count present for every surface, [setup] returns
    normally, and this is what it has registered. *)
Lemma setup_ok surfaces c0 :
  (∀ name data, (name, data) ∈ surfaces →
     is_Some (data !! "num_points_z_half")) →
  ∃ c, setup surfaces c0 = (c, Ok tt) ∧
    var_inputs c = var_inputs c0 ++
      (surfaces ≫= λ '(name, data),
         in_name ← ["radius"; "thickness"];
         [(tube_name name in_name, n_elements data)]) ∧
    var_outputs c = var_outputs c0 ++
      (surfaces ≫= λ '(name, data),
         out_name ← ["A"; "Iy"; "Iz"; "J"];
         [(element_name name out_name, n_elements data)]) ∧
    subjacs c = subjacs c0 ++
      (surfaces ≫= λ '(name, data),
         out_name ← ["A"; "Iy"; "Iz"; "J"];
         in_name ← ["radius"; "thickness"];
         [(element_name name out_name, tube_name name in_name,
           np_arange (n_elements data), np_arange (n_elements data))]).
Proof.
  intros Hkey. revert c0.
  induction surfaces as [|[name data] surfaces IH]; intros c0.
  { exists c0. by rewrite !app_nil_r. }
  rewrite setup_cons, setup_surface by (apply (Hkey name data); mem).
  match goal with
  | |- context [setup surfaces ?c1] =>
      destruct (IH (λ name' data' Hin',
                      Hkey name' data' (list_elem_of_further _ _ _ Hin')) c1)
        as (c & Hrun & Hi & Ho & Hp)
  end.
  exists c. rewrite Hrun, Hi, Ho, Hp. simpl. by rewrite <- !app_assoc.
Qed.

End setup_facts.

(** ** Entries of the stored arrays *)

Section entries.
Local Open Scope R_scope.
Context {K : Type} `{Countable K}.
Implicit Types (store : gmap K array) (radius thickness : array).

Lemma entry_of_Some store key i x :
  entry_of store key i = Some x ↔ ∃ a, store !! key = Some a ∧ a !! i = Some x.
Proof. unfold entry_of. by rewrite bind_Some. Qed.

Lemma entry_of_zip_with store key (f : R → R → R) radius thickness i r t :
  store !! key = Some (zip_with f radius thickness) →
  radius !! i = Some r → thickness !! i = Some t →
  entry_of store key i = Some (f r t).
Proof.
  intros Hk Hr Ht. unfold entry_of. rewrite Hk. simpl.
  by rewrite lookup_zip_with, Hr, Ht.
Qed.

End entries.


(** ** Derivatives of the entry formulas *)

Section derivatives.
Local Open Scope R_scope.

Lemma D_shift_pow (n : nat) (t x : R) :
  derivable_pt_lim (λ y, (y - t) ^ n) x (INR n * (x - t) ^ pred n).
Proof.
  replace (INR n * (x - t) ^ pred n)
    with (INR n * (x - t) ^ pred n * (1 - 0)) by ring.
  apply (derivable_pt_lim_comp (λ y, y - t) (λ y, y ^ n)).
  - apply (derivable_pt_lim_minus id (fct_cte t));
      [apply derivable_pt_lim_id | apply derivable_pt_lim_const].
  - apply derivable_pt_lim_pow.
Qed.

Lemma D_pow_shift (n : nat) (r x : R) :
  derivable_pt_lim (λ y, (r - y) ^ n) x (INR n * (r - x) ^ pred n * (0 - 1)).
Proof.
  apply (derivable_pt_lim_comp (λ y, r - y) (λ y, y ^ n)).
  - apply (derivable_pt_lim_minus (fct_cte r) id);
      [apply derivable_pt_lim_const | apply derivable_pt_lim_id].
  - apply derivable_pt_lim_pow.
Qed.

(** [c (x^n - (x - t)^n)] as a function of the radius [x]. *)
Lemma D_tube_radius (c : R) (n : nat) (t r : R) :
  derivable_pt_lim (λ x, c * (x ^ n - (x - t) ^ n)) r
    (c * (INR n * r ^ pred n - INR n * (r - t) ^ pred n)).
Proof.
  apply (derivable_pt_lim_scal (λ x, x ^ n - (x - t) ^ n) c).
  apply (derivable_pt_lim_minus (λ x, x ^ n) (λ x, (x - t) ^ n));
    [apply derivable_pt_lim_pow | apply D_shift_pow].
Qed.

(** [c (r^n - (r - x)^n)] as a function of the thickness [x]. *)
Lemma D_tube_thickness (c : R) (n : nat) (r t : R) :
  derivable_pt_lim (λ x, c * (r ^ n - (r - x) ^ n)) t
    (c * (0 - INR n * (r - t) ^ pred n * (0 - 1))).
Proof.
  apply (derivable_pt_lim_scal (λ x, r ^ n - (r - x) ^ n) c).
  apply (derivable_pt_lim_minus (fct_cte (r ^ n)) (λ x, (r - x) ^ n));
    [apply derivable_pt_lim_const | apply D_pow_shift].
Qed.

Lemma D_area_radius (r t : R) :
  derivable_pt_lim (λ x, area x t) r (darea_dr r t).
Proof.
  replace (darea_dr r t) with (PI * (INR 2 * r ^ 1 - INR 2 * (r - t) ^ 1))
    by (unfold darea_dr; simpl; ring).
  apply (D_tube_radius PI 2).
Qed.

Lemma D_area_thickness (r t : R) :
  derivable_pt_lim (λ x, area r x) t (darea_dt r t).
Proof.
  replace (darea_dt r t) with (PI * (0 - INR 2 * (r - t) ^ 1 * (0 - 1)))
    by (unfold darea_dt; simpl; ring).
  apply (D_tube_thickness PI 2).
Qed.

Lemma D_inertia_radius (r t : R) :
  derivable_pt_lim (λ x, inertia x t) r (dinertia_dr r t).
Proof.
  replace (dinertia_dr r t)
    with (PI / 4 * (INR 4 * r ^ 3 - INR 4 * (r - t) ^ 3))
    by (unfold dinertia_dr; simpl; field).
  apply (derivable_pt_lim_ext (λ x, PI / 4 * (x ^ 4 - (x - t) ^ 4)));
    [intros z; unfold inertia; field | apply (D_tube_radius (PI / 4) 4)].
Qed.

Lemma D_inertia_thickness (r t : R) :
  derivable_pt_lim (λ x, inertia r x) t (dinertia_dt r t).
Proof.
  replace (dinertia_dt r t)
    with (PI / 4 * (0 - INR 4 * (r - t) ^ 3 * (0 - 1)))
    by (unfold dinertia_dt; simpl; field).
  apply (derivable_pt_lim_ext (λ x, PI / 4 * (r ^ 4 - (r - x) ^ 4)));
    [intros z; unfold inertia; field | apply (D_tube_thickness (PI / 4) 4)].
Qed.

Lemma D_polar_radius (r t : R) :
  derivable_pt_lim (λ x, polar x t) r (dpolar_dr r t).
Proof.
  replace (dpolar_dr r t)
    with (PI / 2 * (INR 4 * r ^ 3 - INR 4 * (r - t) ^ 3))
    by (unfold dpolar_dr; simpl; field).
  apply (derivable_pt_lim_ext (λ x, PI / 2 * (x ^ 4 - (x - t) ^ 4)));
    [intros z; unfold polar; field | apply (D_tube_radius (PI / 2) 4)].
Qed.

Lemma D_polar_thickness (r t : R) :
  derivable_pt_lim (λ x, polar r x) t (dpolar_dt r t).
Proof.
  replace (dpolar_dt r t)
    with (PI / 2 * (0 - INR 4 * (r - t) ^ 3 * (0 - 1)))
    by (unfold dpolar_dt; simpl; field).
  apply (derivable_pt_lim_ext (λ x, PI / 2 * (r ^ 4 - (r - x) ^ 4)));
    [intros z; unfold polar; field | apply (D_tube_thickness (PI / 2) 4)].
Qed.

End derivatives.

(** ** Signs and scaling of the entry formulas *)

Section formulas.
Local Open Scope R_scope.

Lemma area_pos (r t : R) : 0 < t → t < r → 0 < area r t.
Proof.
  intros Ht Hr. unfold area. apply Rmult_lt_0_compat; [apply PI_RGT_0|]. nra.
Qed.

Lemma fourth_powers_pos (r t : R) : 0 < t → t < r → 0 < r ^ 4 - (r - t) ^ 4.
Proof.
  intros Ht Hr.
  assert ((r - t) * (r - t) < r * r) as Hsq by nra.
  assert (0 <= (r - t) * (r - t)) as Hnn by nra.
  replace (r ^ 4 - (r - t) ^ 4)
    with (r * r * (r * r) - (r - t) * (r - t) * ((r - t) * (r - t))) by ring.
  nra.
Qed.

Lemma inertia_pos (r t : R) : 0 < t → t < r → 0 < inertia r t.
Proof.
  intros Ht Hr. unfold inertia.
  pose proof (Rmult_lt_0_compat _ _ PI_RGT_0 (fourth_powers_pos r t Ht Hr)). lra.
Qed.

Lemma polar_pos (r t : R) : 0 < t → t < r → 0 < polar r t.
Proof.
  intros Ht Hr. unfold polar.
  pose proof (Rmult_lt_0_compat _ _ PI_RGT_0 (fourth_powers_pos r t Ht Hr)). lra.
Qed.














End formulas.

(** ** Entries as numbers, and inputs changed in one entry *)

Section perturbation.
Local Open Scope R_scope.
Implicit Types (surfaces : list surface) (inputs : gmap string array).

Lemma output_entry_eq surfaces inputs name data radius thickness i r t :
  well_shaped surfaces inputs → (name, data) ∈ surfaces →
  inputs !! tube_name name "radius" = Some radius →
  inputs !! tube_name name "thickness" = Some thickness →
  radius !! i = Some r → thickness !! i = Some t →
  output_entry surfaces inputs (element_name name "A") i = area r t ∧
  output_entry surfaces inputs (element_name name "Iy") i = inertia r t ∧
  output_entry surfaces inputs (element_name name "Iz") i = inertia r t ∧
  output_entry surfaces inputs (element_name name "J") i = polar r t.
Proof.
  intros Hws Hin Hr Ht Hri Hti. unfold output_entry.
  destruct (compute_ok surfaces inputs ∅ Hws) as (outputs & -> & Hget).
  destruct (Hget name data radius thickness Hin Hr Ht) as (HA & HIy & HIz & HJ).
  simpl. repeat split.
  - by rewrite (entry_of_zip_with _ _ area radius thickness i r t).
  - by rewrite (entry_of_zip_with _ _ inertia radius thickness i r t).
  - by rewrite (entry_of_zip_with _ _ inertia radius thickness i r t).
  - by rewrite (entry_of_zip_with _ _ polar radius thickness i r t).
Qed.

Lemma partial_entry_eq surfaces inputs name data radius thickness i r t :
  let radius_name := tube_name name "radius" in
  let thickness_name := tube_name name "thickness" in
  well_shaped surfaces inputs → (name, data) ∈ surfaces →
  inputs !! radius_name = Some radius →
  inputs !! thickness_name = Some thickness →
  radius !! i = Some r → thickness !! i = Some t →
  partial_entry surfaces inputs (element_name name "A", radius_name) i
    = darea_dr r t ∧
  partial_entry surfaces inputs (element_name name "A", thickness_name) i
    = darea_dt r t ∧
  partial_entry surfaces inputs (element_name name "Iy", radius_name) i
    = dinertia_dr r t ∧
  partial_entry surfaces inputs (element_name name "Iy", thickness_name) i
    = dinertia_dt r t ∧
  partial_entry surfaces inputs (element_name name "Iz", radius_name) i
    = dinertia_dr r t ∧
  partial_entry surfaces inputs (element_name name "Iz", thickness_name) i
    = dinertia_dt r t ∧
  partial_entry surfaces inputs (element_name name "J", radius_name) i
    = dpolar_dr r t ∧
  partial_entry surfaces inputs (element_name name "J", thickness_name) i
    = dpolar_dt r t.
Proof.
  intros radius_name thickness_name Hws Hin Hr Ht Hri Hti. unfold partial_entry.
  destruct (compute_partials_ok surfaces inputs ∅ Hws) as (partials & -> & Hget).
  destruct (Hget name data radius thickness Hin Hr Ht)
    as (H1 & H2 & H3 & H4 & H5 & H6 & H7 & H8).
  simpl. repeat split.
  - by rewrite (entry_of_zip_with _ _ darea_dr radius thickness i r t).
  - by rewrite (entry_of_zip_with _ _ darea_dt radius thickness i r t).
  - by rewrite (entry_of_zip_with _ _ dinertia_dr radius thickness i r t).
  - by rewrite (entry_of_zip_with _ _ dinertia_dt radius thickness i r t).
  - by rewrite (entry_of_zip_with _ _ dinertia_dr radius thickness i r t).
  - by rewrite (entry_of_zip_with _ _ dinertia_dt radius thickness i r t).
  - by rewrite (entry_of_zip_with _ _ dpolar_dr radius thickness i r t).
  - by rewrite (entry_of_zip_with _ _ dpolar_dt radius thickness i r t).
Qed.

Lemma set_entry_lookup key i x inputs key' :
  set_entry key i x inputs !! key' =
  if decide (key = key') then (λ a, <[i:=x]> a) <$> inputs !! key'
  else inputs !! key'.
Proof. unfold set_entry. rewrite lookup_alter. by case_decide; subst. Qed.

Lemma set_entry_well_shaped surfaces inputs key i x :
  well_shaped surfaces inputs → well_shaped surfaces (set_entry key i x inputs).
Proof.
  intros Hws name data Hin.
  destruct (Hws name data Hin) as (radius & thickness & Hr & Ht & Hlen).
  rewrite !set_entry_lookup, Hr, Ht.
  repeat case_decide; simpl; eexists _, _; (split; [done|split; [done|]]);
    by rewrite ?length_insert.
Qed.

Lemma output_entry_set_radius surfaces inputs name data radius thickness i t x :
  let inputs' := set_entry (tube_name name "radius") i x inputs in
  well_shaped surfaces inputs → (name, data) ∈ surfaces →
  inputs !! tube_name name "radius" = Some radius →
  inputs !! tube_name name "thickness" = Some thickness →
  (i < length radius)%nat → thickness !! i = Some t →
  output_entry surfaces inputs' (element_name name "A") i = area x t ∧
  output_entry surfaces inputs' (element_name name "Iy") i = inertia x t ∧
  output_entry surfaces inputs' (element_name name "Iz") i = inertia x t ∧
  output_entry surfaces inputs' (element_name name "J") i = polar x t.
Proof.
  intros inputs' Hws Hin Hr Ht Hi Hti.
  apply (output_entry_eq surfaces inputs' name data (<[i:=x]> radius) thickness);
    try done.
  - by apply set_entry_well_shaped.
  - unfold inputs'. rewrite set_entry_lookup, Hr. by case_decide.
  - unfold inputs'. rewrite set_entry_lookup, Ht. case_decide as E; [|done].
    by apply tube_name_radius_thickness in E.
  - by apply list_lookup_insert_eq.
Qed.

Lemma output_entry_set_thickness surfaces inputs name data radius thickness i r x :
  let inputs' := set_entry (tube_name name "thickness") i x inputs in
  well_shaped surfaces inputs → (name, data) ∈ surfaces →
  inputs !! tube_name name "radius" = Some radius →
  inputs !! tube_name name "thickness" = Some thickness →
  radius !! i = Some r → (i < length thickness)%nat →
  output_entry surfaces inputs' (element_name name "A") i = area r x ∧
  output_entry surfaces inputs' (element_name name "Iy") i = inertia r x ∧
  output_entry surfaces inputs' (element_name name "Iz") i = inertia r x ∧
  output_entry surfaces inputs' (element_name name "J") i = polar r x.
Proof.
  intros inputs' Hws Hin Hr Ht Hri Hi.
  apply (output_entry_eq surfaces inputs' name data radius (<[i:=x]> thickness));
    try done.
  - by apply set_entry_well_shaped.
  - unfold inputs'. rewrite set_entry_lookup, Hr. case_decide as E; [|done].
    symmetry in E. by apply tube_name_radius_thickness in E.
  - unfold inputs'. rewrite set_entry_lookup, Ht. by case_decide.
  - by apply list_lookup_insert_eq.
Qed.

End perturbation.

(** ** The running example is well shaped *)

Lemma wing_well_shaped (radius thickness : array) :
  length radius = length thickness →
  well_shaped wing (wing_inputs radius thickness).
Proof.
  intros Hlen name data Hin. apply list_elem_of_singleton in Hin.
  injection Hin as -> ->. by exists radius, thickness.
Defined.

Section examples.
Local Open Scope R_scope.

(** The scenario [radius = [1.0]], [thickness = [0.1]]. *)
Example compute_wing_area :
  (compute wing (wing_inputs [1] [/ 10]) ∅).1 !! "wing_element_A"
  = Some [PI * (1 ^ 2 - (1 - / 10) ^ 2)].
Proof. reflexivity. Qed.

Example area_one_tenth : (area 1 (/ 10) = 19 / 100 * PI).
Proof. unfold area. field. Qed.

Example compute_partials_wing_area :
  (compute_partials wing (wing_inputs [1] [/ 10]) ∅).1
    !! ("wing_element_A", "wing_tube_thickness")
  = Some [2 * PI * (1 * 0 - (1 - / 10) * -1)].
Proof. reflexivity. Qed.

(** Broadcasting: a thickness of length one is stretched; lengths 3 and 2
    are refused. *)
Example np_sub_broadcast : np_sub [5; 6; 7] [1] = Ok [5 - 1; 6 - 1; 7 - 1].
Proof. reflexivity. Qed.

Example np_sub_refused : np_sub [5; 6; 7] [1; 2] = Raise ValueError.
Proof. reflexivity. Qed.

Example compute_missing_input :
  compute wing ∅ ∅ = (∅, Raise (KeyError "wing_tube_radius")).
Proof. reflexivity. Qed.

End examples.

Section claims.
Local Open Scope R_scope.
Implicit Types (surfaces : list surface) (inputs outputs : gmap string array).
Implicit Types (partials : gmap (string * string) array).

(** C4. When the listed surfaces have distinct names and the data of each
    gives a half-span node count [h >= 2], so that there is at least one
    element (and [2 h - 2] is below [2^60], inside numpy's index range),
    [setup] on a fresh component returns normally and
    registers, per surface and in list order, the two inputs [radius] and
    [thickness] and the four outputs [A], [Iy], [Iz], [J], each of length
    [2 h - 2], and the eight (output, input) pairs with rows and columns
    both [0, 1, ..., 2 h - 3]: a diagonal. *)
Theorem setup_declares surfaces :
  NoDup surfaces.*1 →
  (∀ name data, (name, data) ∈ surfaces →
     ∃ h, data !! "num_points_z_half" = Some h ∧
          (2 ≤ h)%Z ∧ (2 * h - 2 < 2 ^ 60)%Z) →
  ∃ c, setup surfaces (Component [] [] []) = (c, Ok tt) ∧
    var_inputs c =
      (surfaces ≫= λ '(name, data),
         in_name ← ["radius"; "thickness"];
         [(tube_name name in_name, n_elements data)]) ∧
    var_outputs c =
      (surfaces ≫= λ '(name, data),
         out_name ← ["A"; "Iy"; "Iz"; "J"];
         [(element_name name out_name, n_elements data)]) ∧
    subjacs c =
      (surfaces ≫= λ '(name, data),
         out_name ← ["A"; "Iy"; "Iz"; "J"];
         in_name ← ["radius"; "thickness"];
         [(element_name name out_name, tube_name name in_name,
           np_arange (n_elements data), np_arange (n_elements data))]) ∧
    (∀ name data h, (name, data) ∈ surfaces →
       data !! "num_points_z_half" = Some h →
       n_elements data = (2 * h - 2)%Z) ∧
    (∀ name data (k : nat), (name, data) ∈ surfaces →
       np_arange (n_elements data) !! k
       = if decide (Z.of_nat k < n_elements data)%Z
         then Some (Z.of_nat k) else None).
Proof.
  intros _ Hkey.
  destruct (setup_ok surfaces (Component [] [] [])) as (c & Hrun & Hi & Ho & Hp).
  { intros name data Hin. destruct (Hkey name data Hin) as (h & Hh & _). eauto. }
  exists c. repeat (split; [done|]). split.
  - intros name data h _ Hh. unfold n_elements. by rewrite Hh.
  - intros name data k _. apply np_arange_lookup.
Qed.

Lemma setup_declares_wing :
  NoDup wing.*1 ∧
  ∃ c, setup wing (Component [] [] []) = (c, Ok tt) ∧
    var_inputs c =
      (wing ≫= λ '(name, data),
         in_name ← ["radius"; "thickness"];
         [(tube_name name in_name, n_elements data)]) ∧
    var_outputs c =
      (wing ≫= λ '(name, data),
         out_name ← ["A"; "Iy"; "Iz"; "J"];
         [(element_name name out_name, n_elements data)]) ∧
    subjacs c =
      (wing ≫= λ '(name, data),
         out_name ← ["A"; "Iy"; "Iz"; "J"];
         in_name ← ["radius"; "thickness"];
         [(element_name name out_name, tube_name name in_name,
           np_arange (n_elements data), np_arange (n_elements data))]) ∧
    (∀ name data h, (name, data) ∈ wing →
       data !! "num_points_z_half" = Some h →
       n_elements data = (2 * h - 2)%Z) ∧
    (∀ name data (k : nat), (name, data) ∈ wing →
       np_arange (n_elements data) !! k
       = if decide (Z.of_nat k < n_elements data)%Z
         then Some (Z.of_nat k) else None).
Proof.
  assert (NoDup wing.*1) as Hnames
    by (apply (bool_decide_unpack _); by vm_compute).
  split; [exact Hnames|].
  apply (setup_declares wing Hnames).
  intros name data Hin. apply list_elem_of_singleton in Hin.
  injection Hin as -> ->. exists 3%Z. split; [reflexivity|]. split; lia.
Defined.

Example setup_wing :
  setup wing (Component [] [] []) =
  (Component
     [("wing_tube_radius", 4%Z); ("wing_tube_thickness", 4%Z)]
     [("wing_element_A", 4%Z); ("wing_element_Iy", 4%Z);
      ("wing_element_Iz", 4%Z); ("wing_element_J", 4%Z)]
     [("wing_element_A", "wing_tube_radius", [0; 1; 2; 3]%Z, [0; 1; 2; 3]%Z);
      ("wing_element_A", "wing_tube_thickness", [0; 1; 2; 3]%Z, [0; 1; 2; 3]%Z);
      ("wing_element_Iy", "wing_tube_radius", [0; 1; 2; 3]%Z, [0; 1; 2; 3]%Z);
      ("wing_element_Iy", "wing_tube_thickness", [0; 1; 2; 3]%Z, [0; 1; 2; 3]%Z);
      ("wing_element_Iz", "wing_tube_radius", [0; 1; 2; 3]%Z, [0; 1; 2; 3]%Z);
      ("wing_element_Iz", "wing_tube_thickness", [0; 1; 2; 3]%Z, [0; 1; 2; 3]%Z);
      ("wing_element_J", "wing_tube_radius", [0; 1; 2; 3]%Z, [0; 1; 2; 3]%Z);
      ("wing_element_J", "wing_tube_thickness", [0; 1; 2; 3]%Z, [0; 1; 2; 3]%Z)],
   Ok tt).
Proof. reflexivity. Qed.

(** C1. On inputs whose radius and thickness arrays have one length per
    surface, [compute] returns normally and, for every listed surface and
    every index [i], stores [A[i] = pi (r2^2 - r1^2)],
    [Iy[i] = Iz[i] = pi (r2^4 - r1^4) / 4] and [J[i] = pi (r2^4 - r1^4) / 2],
    where [r1 = radius[i] - thickness[i]] and [r2 = radius[i]]. *)
Theorem compute_elementwise surfaces inputs outputs0 :
  well_shaped surfaces inputs →
  ∃ outputs, compute surfaces inputs outputs0 = (outputs, Ok tt) ∧
    ∀ name data i radius_i thickness_i, (name, data) ∈ surfaces →
      entry_of inputs (tube_name name "radius") i = Some radius_i →
      entry_of inputs (tube_name name "thickness") i = Some thickness_i →
      let r1 := radius_i - thickness_i in
      let r2 := radius_i in
      entry_of outputs (element_name name "A") i
        = Some (PI * (r2 ^ 2 - r1 ^ 2)) ∧
      entry_of outputs (element_name name "Iy") i
        = Some (PI * (r2 ^ 4 - r1 ^ 4) / 4) ∧
      entry_of outputs (element_name name "Iz") i
        = Some (PI * (r2 ^ 4 - r1 ^ 4) / 4) ∧
      entry_of outputs (element_name name "J") i
        = Some (PI * (r2 ^ 4 - r1 ^ 4) / 2).
Proof.
  intros Hws. destruct (compute_ok surfaces inputs outputs0 Hws)
    as (outputs & Hrun & Hget).
  exists outputs. split; [done|].
  intros name data i r t Hin (radius & Hr & Hri)%entry_of_Some
    (thickness & Ht & Hti)%entry_of_Some.
  destruct (Hget name data radius thickness Hin Hr Ht) as (HA & HIy & HIz & HJ).
  repeat split.
  - apply (entry_of_zip_with _ _ area radius thickness); done.
  - apply (entry_of_zip_with _ _ inertia radius thickness); done.
  - apply (entry_of_zip_with _ _ inertia radius thickness); done.
  - apply (entry_of_zip_with _ _ polar radius thickness); done.
Qed.

Lemma compute_elementwise_wing :
  well_shaped wing (wing_inputs [1] [/ 10]) ∧
  ∃ outputs, compute wing (wing_inputs [1] [/ 10]) ∅ = (outputs, Ok tt) ∧
    ∀ name data i radius_i thickness_i, (name, data) ∈ wing →
      entry_of (wing_inputs [1] [/ 10]) (tube_name name "radius") i = Some radius_i →
      entry_of (wing_inputs [1] [/ 10]) (tube_name name "thickness") i = Some thickness_i →
      let r1 := radius_i - thickness_i in
      let r2 := radius_i in
      entry_of outputs (element_name name "A") i
        = Some (PI * (r2 ^ 2 - r1 ^ 2)) ∧
      entry_of outputs (element_name name "Iy") i
        = Some (PI * (r2 ^ 4 - r1 ^ 4) / 4) ∧
      entry_of outputs (element_name name "Iz") i
        = Some (PI * (r2 ^ 4 - r1 ^ 4) / 4) ∧
      entry_of outputs (element_name name "J") i
        = Some (PI * (r2 ^ 4 - r1 ^ 4) / 2).
Proof.
  split; [apply wing_well_shaped; reflexivity|].
  apply (compute_elementwise wing (wing_inputs [1] [/ 10]) ∅).
  apply wing_well_shaped. reflexivity.
Defined.

(** X19. In exact arithmetic the eight expressions simplify to closed forms.
    On inputs whose radius and thickness arrays have one length per surface,
    [compute_partials] over the reals returns normally and, for every listed
    surface and every index [i], the eight stored arrays hold
    [dA/dradius = 2 pi (r2 - r1)], [dA/dthickness = 2 pi r1],
    [dIy/dradius = dIz/dradius = pi (r2^3 - r1^3)],
    [dIy/dthickness = dIz/dthickness = pi r1^3],
    [dJ/dradius = 2 pi (r2^3 - r1^3)] and [dJ/dthickness = 2 pi r1^3],
    where [r1 = radius[i] - thickness[i]] and [r2 = radius[i]]. *)
Theorem compute_partials_closed_forms surfaces inputs partials0 :
  well_shaped surfaces inputs →
  ∃ partials, compute_partials surfaces inputs partials0 = (partials, Ok tt) ∧
    ∀ name data i radius_i thickness_i, (name, data) ∈ surfaces →
      let radius_name := tube_name name "radius" in
      let thickness_name := tube_name name "thickness" in
      entry_of inputs radius_name i = Some radius_i →
      entry_of inputs thickness_name i = Some thickness_i →
      let r1 := radius_i - thickness_i in
      let r2 := radius_i in
      entry_of partials (element_name name "A", radius_name) i
        = Some (2 * PI * (r2 - r1)) ∧
      entry_of partials (element_name name "A", thickness_name) i
        = Some (2 * PI * r1) ∧
      entry_of partials (element_name name "Iy", radius_name) i
        = Some (PI * (r2 ^ 3 - r1 ^ 3)) ∧
      entry_of partials (element_name name "Iy", thickness_name) i
        = Some (PI * r1 ^ 3) ∧
      entry_of partials (element_name name "Iz", radius_name) i
        = Some (PI * (r2 ^ 3 - r1 ^ 3)) ∧
      entry_of partials (element_name name "Iz", thickness_name) i
        = Some (PI * r1 ^ 3) ∧
      entry_of partials (element_name name "J", radius_name) i
        = Some (2 * PI * (r2 ^ 3 - r1 ^ 3)) ∧
      entry_of partials (element_name name "J", thickness_name) i
        = Some (2 * PI * r1 ^ 3).
Proof.
  intros Hws. destruct (compute_partials_ok surfaces inputs partials0 Hws)
    as (partials & Hrun & Hget).
  exists partials. split; [done|].
  intros name data i r t Hin radius_name thickness_name
    (radius & Hr & Hri)%entry_of_Some (thickness & Ht & Hti)%entry_of_Some.
  destruct (Hget name data radius thickness Hin Hr Ht)
    as (H1 & H2 & H3 & H4 & H5 & H6 & H7 & H8).
  simpl. repeat split.
  - rewrite (entry_of_zip_with _ _ darea_dr radius thickness i r t) by done.
    f_equal. unfold darea_dr. ring.
  - rewrite (entry_of_zip_with _ _ darea_dt radius thickness i r t) by done.
    f_equal. unfold darea_dt. ring.
  - rewrite (entry_of_zip_with _ _ dinertia_dr radius thickness i r t) by done.
    f_equal. unfold dinertia_dr. ring.
  - rewrite (entry_of_zip_with _ _ dinertia_dt radius thickness i r t) by done.
    f_equal. unfold dinertia_dt. ring.
  - rewrite (entry_of_zip_with _ _ dinertia_dr radius thickness i r t) by done.
    f_equal. unfold dinertia_dr. ring.
  - rewrite (entry_of_zip_with _ _ dinertia_dt radius thickness i r t) by done.
    f_equal. unfold dinertia_dt. ring.
  - rewrite (entry_of_zip_with _ _ dpolar_dr radius thickness i r t) by done.
    f_equal. unfold dpolar_dr. ring.
  - rewrite (entry_of_zip_with _ _ dpolar_dt radius thickness i r t) by done.
    f_equal. unfold dpolar_dt. ring.
Qed.

Lemma compute_partials_closed_forms_wing :
  well_shaped wing (wing_inputs [1] [/ 10]) ∧
  ∃ partials,
    compute_partials wing (wing_inputs [1] [/ 10]) ∅ = (partials, Ok tt) ∧
    ∀ name data i radius_i thickness_i, (name, data) ∈ wing →
      let radius_name := tube_name name "radius" in
      let thickness_name := tube_name name "thickness" in
      entry_of (wing_inputs [1] [/ 10]) radius_name i = Some radius_i →
      entry_of (wing_inputs [1] [/ 10]) thickness_name i = Some thickness_i →
      let r1 := radius_i - thickness_i in
      let r2 := radius_i in
      entry_of partials (element_name name "A", radius_name) i
        = Some (2 * PI * (r2 - r1)) ∧
      entry_of partials (element_name name "A", thickness_name) i
        = Some (2 * PI * r1) ∧
      entry_of partials (element_name name "Iy", radius_name) i
        = Some (PI * (r2 ^ 3 - r1 ^ 3)) ∧
      entry_of partials (element_name name "Iy", thickness_name) i
        = Some (PI * r1 ^ 3) ∧
      entry_of partials (element_name name "Iz", radius_name) i
        = Some (PI * (r2 ^ 3 - r1 ^ 3)) ∧
      entry_of partials (element_name name "Iz", thickness_name) i
        = Some (PI * r1 ^ 3) ∧
      entry_of partials (element_name name "J", radius_name) i
        = Some (2 * PI * (r2 ^ 3 - r1 ^ 3)) ∧
      entry_of partials (element_name name "J", thickness_name) i
        = Some (2 * PI * r1 ^ 3).
Proof.
  split; [apply wing_well_shaped; reflexivity|].
  apply (compute_partials_closed_forms wing (wing_inputs [1] [/ 10]) ∅).
  apply wing_well_shaped. reflexivity.
Defined.

(** C3. Every stored partial is the derivative of the corresponding output
    entry of [compute]: for each listed surface, each output, each input and
    each index [i], the function that sends [x] to the output's entry [i]
    computed after setting entry [i] of that input to [x] is differentiable at
    the input's current value, and its derivative there is entry [i] of the
    array [compute_partials] stores for that pair. *)
Theorem partials_are_derivatives surfaces inputs name data out wrt i x0 :
  well_shaped surfaces inputs → (name, data) ∈ surfaces →
  out ∈ ["A"; "Iy"; "Iz"; "J"] → wrt ∈ ["radius"; "thickness"] →
  entry_of inputs (tube_name name wrt) i = Some x0 →
  derivable_pt_lim
    (λ x, output_entry surfaces (set_entry (tube_name name wrt) i x inputs)
            (element_name name out) i)
    x0
    (partial_entry surfaces inputs (element_name name out, tube_name name wrt) i).
Proof.
  intros Hws Hin Hout Hwrt (a & Ha & Hai)%entry_of_Some.
  destruct (Hws name data Hin) as (radius & thickness & Hr & Ht & Hlen).
  pose proof (lookup_lt_Some _ _ _ Hai) as Hi.
  set_unfold in Hwrt. destruct Hwrt as [->|[->|[]]].
  - assert (a = radius) as -> by congruence.
    destruct (lookup_lt_is_Some_2 thickness i) as [t Hti]; [by rewrite <- Hlen|].
    destruct (partial_entry_eq surfaces inputs name data radius thickness i x0 t
                Hws Hin Hr Ht Hai Hti) as (H1 & _ & H3 & _ & H5 & _ & H7 & _).
    pose proof (λ x, output_entry_set_radius surfaces inputs name data
                  radius thickness i t x Hws Hin Hr Ht Hi Hti) as Hout_x.
    set_unfold in Hout. destruct Hout as [->|[->|[->|[->|[]]]]].
    + rewrite H1. apply (derivable_pt_lim_ext (λ x, area x t));
        [intros z; symmetry; apply Hout_x | apply D_area_radius].
    + rewrite H3. apply (derivable_pt_lim_ext (λ x, inertia x t));
        [intros z; symmetry; apply Hout_x | apply D_inertia_radius].
    + rewrite H5. apply (derivable_pt_lim_ext (λ x, inertia x t));
        [intros z; symmetry; apply Hout_x | apply D_inertia_radius].
    + rewrite H7. apply (derivable_pt_lim_ext (λ x, polar x t));
        [intros z; symmetry; apply Hout_x | apply D_polar_radius].
  - assert (a = thickness) as -> by congruence.
    destruct (lookup_lt_is_Some_2 radius i) as [r Hri]; [by rewrite Hlen|].
    destruct (partial_entry_eq surfaces inputs name data radius thickness i r x0
                Hws Hin Hr Ht Hri Hai) as (_ & H2 & _ & H4 & _ & H6 & _ & H8).
    pose proof (λ x, output_entry_set_thickness surfaces inputs name data
                  radius thickness i r x Hws Hin Hr Ht Hri Hi) as Hout_x.
    set_unfold in Hout. destruct Hout as [->|[->|[->|[->|[]]]]].
    + rewrite H2. apply (derivable_pt_lim_ext (λ x, area r x));
        [intros z; symmetry; apply Hout_x | apply D_area_thickness].
    + rewrite H4. apply (derivable_pt_lim_ext (λ x, inertia r x));
        [intros z; symmetry; apply Hout_x | apply D_inertia_thickness].
    + rewrite H6. apply (derivable_pt_lim_ext (λ x, inertia r x));
        [intros z; symmetry; apply Hout_x | apply D_inertia_thickness].
    + rewrite H8. apply (derivable_pt_lim_ext (λ x, polar r x));
        [intros z; symmetry; apply Hout_x | apply D_polar_thickness].
Qed.

Lemma partials_are_derivatives_wing :
  well_shaped wing (wing_inputs [1] [/ 10]) ∧
  derivable_pt_lim
    (λ x, output_entry wing
            (set_entry (tube_name "wing" "thickness") 0 x (wing_inputs [1] [/ 10]))
            (element_name "wing" "J") 0)
    (/ 10)
    (partial_entry wing (wing_inputs [1] [/ 10])
       (element_name "wing" "J", tube_name "wing" "thickness") 0).
Proof.
  split; [apply wing_well_shaped; reflexivity|].
  apply (partials_are_derivatives wing (wing_inputs [1] [/ 10])
           "wing" {["num_points_z_half" := 3%Z]} "J" "thickness" 0%nat (/ 10)).
  - apply wing_well_shaped. reflexivity.
  - apply list_elem_of_here.
  - mem.
  - mem.
  - reflexivity.
Defined.

(** C5. Without any condition on the inputs: whenever [compute] returns
    normally, the arrays it has stored for [Iy] and [Iz] of a listed surface
    are one and the same array, so they agree at every index. *)
Theorem Iy_equals_Iz surfaces inputs outputs0 outputs name data :
  compute surfaces inputs outputs0 = (outputs, Ok tt) →
  (name, data) ∈ surfaces →
  (∃ v, outputs !! element_name name "Iy" = Some v ∧
        outputs !! element_name name "Iz" = Some v) ∧
  ∀ i, entry_of outputs (element_name name "Iy") i
       = entry_of outputs (element_name name "Iz") i.
Proof.
  intros Hrun Hin.
  assert (∃ v, outputs !! element_name name "Iy" = Some v ∧
               outputs !! element_name name "Iz" = Some v) as (v & Hy & Hz).
  { revert outputs Hrun Hin.
    induction surfaces as [|[name' data'] surfaces IH] using rev_ind;
      intros outputs Hrun Hin; [by apply elem_of_nil in Hin|].
    rewrite compute_app in Hrun.
    destruct (compute surfaces inputs outputs0) as [outputs1 [[]|e]] eqn:Hrun1;
      [|done].
    apply compute_surface_inv in Hrun as (a & iy & j & ->).
    destruct (decide (name = name')) as [->|Hne].
    - exists iy. split.
      + rewrite lookup_insert_ne by name_ne. rewrite lookup_insert_ne by name_ne.
        by rewrite lookup_insert_eq.
      + rewrite lookup_insert_ne by name_ne. by rewrite lookup_insert_eq.
    - assert ((name, data) ∈ surfaces) as Hin'.
      { apply elem_of_app in Hin as [|Hin]; [done|].
        apply list_elem_of_singleton in Hin. congruence. }
      destruct (IH outputs1 eq_refl Hin') as (v & Hy & Hz).
      exists v. by rewrite !lookup_insert_ne by name_ne. }
  split; [by exists v|]. intros i. unfold entry_of. by rewrite Hy, Hz.
Qed.

Lemma Iy_equals_Iz_wing :
  ∃ outputs,
    compute wing (wing_inputs [1] [/ 10]) ∅ = (outputs, Ok tt) ∧
    (∃ v, outputs !! element_name "wing" "Iy" = Some v ∧
          outputs !! element_name "wing" "Iz" = Some v) ∧
    ∀ i, entry_of outputs (element_name "wing" "Iy") i
         = entry_of outputs (element_name "wing" "Iz") i.
Proof.
  eexists. split; [reflexivity|].
  apply (Iy_equals_Iz wing (wing_inputs [1] [/ 10]) ∅ _
           "wing" {["num_points_z_half" := 3%Z]}).
  - reflexivity.
  - apply list_elem_of_here.
Defined.

(** C6, in exact arithmetic.  At every index where
    [radius[i] > thickness[i] > 0], the four formulas [compute] evaluates,
    read over the reals, give positive entries of [A], [Iy], [Iz] and [J].
    (In binary64 the stored entries can be [0]; an instance is evaluated in
    the last section.) *)
Theorem compute_positive surfaces inputs outputs0 name data i radius_i thickness_i :
  well_shaped surfaces inputs → (name, data) ∈ surfaces →
  entry_of inputs (tube_name name "radius") i = Some radius_i →
  entry_of inputs (tube_name name "thickness") i = Some thickness_i →
  0 < thickness_i → thickness_i < radius_i →
  ∃ outputs, compute surfaces inputs outputs0 = (outputs, Ok tt) ∧
    ∃ a iy iz j,
      entry_of outputs (element_name name "A") i = Some a ∧ 0 < a ∧
      entry_of outputs (element_name name "Iy") i = Some iy ∧ 0 < iy ∧
      entry_of outputs (element_name name "Iz") i = Some iz ∧ 0 < iz ∧
      entry_of outputs (element_name name "J") i = Some j ∧ 0 < j.
Proof.
  intros Hws Hin (radius & Hr & Hri)%entry_of_Some
    (thickness & Ht & Hti)%entry_of_Some Hpos Hlt.
  destruct (compute_ok surfaces inputs outputs0 Hws) as (outputs & Hrun & Hget).
  destruct (Hget name data radius thickness Hin Hr Ht) as (HA & HIy & HIz & HJ).
  exists outputs. split; [done|].
  exists (area radius_i thickness_i), (inertia radius_i thickness_i),
    (inertia radius_i thickness_i), (polar radius_i thickness_i).
  repeat split;
    eauto using entry_of_zip_with, area_pos, inertia_pos, polar_pos.
Qed.

Lemma compute_positive_wing :
  (0 < / 10 ∧ / 10 < 1) ∧
  ∃ outputs, compute wing (wing_inputs [1] [/ 10]) ∅ = (outputs, Ok tt) ∧
    ∃ a iy iz j,
      entry_of outputs (element_name "wing" "A") 0 = Some a ∧ 0 < a ∧
      entry_of outputs (element_name "wing" "Iy") 0 = Some iy ∧ 0 < iy ∧
      entry_of outputs (element_name "wing" "Iz") 0 = Some iz ∧ 0 < iz ∧
      entry_of outputs (element_name "wing" "J") 0 = Some j ∧ 0 < j.
Proof.
  split; [lra|].
  apply (compute_positive wing (wing_inputs [1] [/ 10]) ∅
           "wing" {["num_points_z_half" := 3%Z]} 0%nat 1 (/ 10)).
  - apply wing_well_shaped. reflexivity.
  - apply list_elem_of_here.
  - reflexivity.
  - reflexivity.
  - lra.
  - lra.
Defined.



(** C8. A thickness larger than the radius at some index raises nothing:
    [compute] and [compute_partials] return normally and the entries at that
    index are the same formulas of radius and thickness as anywhere else. *)
Theorem negative_inner_radius_unchecked surfaces inputs outputs0 partials0
    name data i radius_i thickness_i :
  well_shaped surfaces inputs → (name, data) ∈ surfaces →
  let radius_name := tube_name name "radius" in
  let thickness_name := tube_name name "thickness" in
  entry_of inputs radius_name i = Some radius_i →
  entry_of inputs thickness_name i = Some thickness_i →
  radius_i < thickness_i →
  ∃ outputs partials,
    compute surfaces inputs outputs0 = (outputs, Ok tt) ∧
    compute_partials surfaces inputs partials0 = (partials, Ok tt) ∧
    entry_of outputs (element_name name "A") i
      = Some (area radius_i thickness_i) ∧
    entry_of outputs (element_name name "Iy") i
      = Some (inertia radius_i thickness_i) ∧
    entry_of outputs (element_name name "Iz") i
      = Some (inertia radius_i thickness_i) ∧
    entry_of outputs (element_name name "J") i
      = Some (polar radius_i thickness_i) ∧
    entry_of partials (element_name name "A", radius_name) i
      = Some (darea_dr radius_i thickness_i) ∧
    entry_of partials (element_name name "A", thickness_name) i
      = Some (darea_dt radius_i thickness_i) ∧
    entry_of partials (element_name name "Iy", radius_name) i
      = Some (dinertia_dr radius_i thickness_i) ∧
    entry_of partials (element_name name "Iy", thickness_name) i
      = Some (dinertia_dt radius_i thickness_i) ∧
    entry_of partials (element_name name "Iz", radius_name) i
      = Some (dinertia_dr radius_i thickness_i) ∧
    entry_of partials (element_name name "Iz", thickness_name) i
      = Some (dinertia_dt radius_i thickness_i) ∧
    entry_of partials (element_name name "J", radius_name) i
      = Some (dpolar_dr radius_i thickness_i) ∧
    entry_of partials (element_name name "J", thickness_name) i
      = Some (dpolar_dt radius_i thickness_i).
Proof.
  intros Hws Hin radius_name thickness_name (radius & Hr & Hri)%entry_of_Some
    (thickness & Ht & Hti)%entry_of_Some _.
  destruct (compute_ok surfaces inputs outputs0 Hws) as (outputs & Hrun & Hget).
  destruct (compute_partials_ok surfaces inputs partials0 Hws)
    as (partials & Hrun' & Hget').
  destruct (Hget name data radius thickness Hin Hr Ht) as (HA & HIy & HIz & HJ).
  destruct (Hget' name data radius thickness Hin Hr Ht)
    as (H1 & H2 & H3 & H4 & H5 & H6 & H7 & H8).
  exists outputs, partials.
  repeat split; eauto using entry_of_zip_with.
Qed.

Lemma negative_inner_radius_unchecked_wing :
  1 < 3 ∧
  ∃ outputs partials,
    compute wing (wing_inputs [1] [3]) ∅ = (outputs, Ok tt) ∧
    compute_partials wing (wing_inputs [1] [3]) ∅ = (partials, Ok tt) ∧
    entry_of outputs (element_name "wing" "A") 0 = Some (area 1 3) ∧
    entry_of outputs (element_name "wing" "Iy") 0 = Some (inertia 1 3) ∧
    entry_of outputs (element_name "wing" "Iz") 0 = Some (inertia 1 3) ∧
    entry_of outputs (element_name "wing" "J") 0 = Some (polar 1 3) ∧
    entry_of partials (element_name "wing" "A", tube_name "wing" "radius") 0
      = Some (darea_dr 1 3) ∧
    entry_of partials (element_name "wing" "A", tube_name "wing" "thickness") 0
      = Some (darea_dt 1 3) ∧
    entry_of partials (element_name "wing" "Iy", tube_name "wing" "radius") 0
      = Some (dinertia_dr 1 3) ∧
    entry_of partials (element_name "wing" "Iy", tube_name "wing" "thickness") 0
      = Some (dinertia_dt 1 3) ∧
    entry_of partials (element_name "wing" "Iz", tube_name "wing" "radius") 0
      = Some (dinertia_dr 1 3) ∧
    entry_of partials (element_name "wing" "Iz", tube_name "wing" "thickness") 0
      = Some (dinertia_dt 1 3) ∧
    entry_of partials (element_name "wing" "J", tube_name "wing" "radius") 0
      = Some (dpolar_dr 1 3) ∧
    entry_of partials (element_name "wing" "J", tube_name "wing" "thickness") 0
      = Some (dpolar_dt 1 3).
Proof.
  split; [lra|].
  apply (negative_inner_radius_unchecked wing (wing_inputs [1] [3]) ∅ ∅
           "wing" {["num_points_z_half" := 3%Z]} 0%nat 1 3).
  - apply wing_well_shaped. reflexivity.
  - apply list_elem_of_here.
  - reflexivity.
  - reflexivity.
  - lra.
Defined.

(** X18. Called directly on stores of arrays, [compute] compares no length
    with the one fixed at [setup]: whenever the radius and the thickness of
    every listed surface have one common length, whatever it is, it returns
    normally and every output array has that length.  A further surface
    whose radius and thickness differ in length, neither of length one,
    stops the call with the [ValueError] of the array subtraction, before
    anything of that surface is stored. *)
Theorem compute_length_checks surfaces inputs outputs0 name data radius thickness :
  well_shaped surfaces inputs →
  inputs !! tube_name name "radius" = Some radius →
  inputs !! tube_name name "thickness" = Some thickness →
  ∃ outputs, compute surfaces inputs outputs0 = (outputs, Ok tt) ∧
    (∀ name' data' radius', (name', data') ∈ surfaces →
       inputs !! tube_name name' "radius" = Some radius' →
       ∃ A Iy Iz J,
         outputs !! element_name name' "A" = Some A ∧
         outputs !! element_name name' "Iy" = Some Iy ∧
         outputs !! element_name name' "Iz" = Some Iz ∧
         outputs !! element_name name' "J" = Some J ∧
         length A = length radius' ∧ length Iy = length radius' ∧
         length Iz = length radius' ∧ length J = length radius') ∧
    (length radius ≠ length thickness →
     length radius ≠ 1%nat → length thickness ≠ 1%nat →
     ∀ surfaces', compute (surfaces ++ (name, data) :: surfaces') inputs outputs0
                  = (outputs, Raise ValueError)).
Proof.
  intros Hws Hr Ht.
  destruct (compute_ok surfaces inputs outputs0 Hws) as (outputs & Hrun & Hget).
  exists outputs. split; [done|]. split.
  - intros name' data' radius' Hin Hr'.
    destruct (Hws name' data' Hin) as (radius'' & thickness' & Hr'' & Ht' & Hlen).
    assert (radius'' = radius') as -> by congruence.
    destruct (Hget name' data' radius' thickness' Hin Hr' Ht')
      as (HA & HIy & HIz & HJ).
    eexists _, _, _, _. repeat (split; [eassumption|]).
    by rewrite !length_zip_with_l_eq.
  - intros Hne H1 H2 surfaces'. rewrite compute_app, Hrun.
    by apply (compute_surface_mismatch name data surfaces' inputs outputs
                radius thickness).
Qed.

Lemma compute_length_checks_wing :
  let inputs : gmap string array :=
    <["tail_tube_radius" := [1; 2; 3]]>
      (<["tail_tube_thickness" := [1; 2]]> (wing_inputs [2; 2] [1; 1])) in
  well_shaped wing inputs ∧
  ∃ outputs, compute wing inputs ∅ = (outputs, Ok tt) ∧
    (∀ name' data' radius', (name', data') ∈ wing →
       inputs !! tube_name name' "radius" = Some radius' →
       ∃ A Iy Iz J,
         outputs !! element_name name' "A" = Some A ∧
         outputs !! element_name name' "Iy" = Some Iy ∧
         outputs !! element_name name' "Iz" = Some Iz ∧
         outputs !! element_name name' "J" = Some J ∧
         length A = length radius' ∧ length Iy = length radius' ∧
         length Iz = length radius' ∧ length J = length radius') ∧
    (length [1; 2; 3] ≠ length [1; 2] →
     length [1; 2; 3] ≠ 1%nat → length [1; 2] ≠ 1%nat →
     ∀ surfaces', compute (wing ++ ("tail", ∅) :: surfaces') inputs ∅
                  = (outputs, Raise ValueError)).
Proof.
  intros inputs.
  assert (well_shaped wing inputs) as Hws.
  { intros name data Hin. apply list_elem_of_singleton in Hin.
    injection Hin as -> ->. by exists [2; 2], [1; 1]. }
  split; [exact Hws|].
  apply (compute_length_checks wing inputs ∅ "tail" ∅ [1; 2; 3] [1; 2] Hws);
    reflexivity.
Defined.



End claims.

(** ** Runs that stop, and what a run leaves alone *)

Ltac other_name Hk :=
  let E := fresh "E" in
  intros E; symmetry in E; revert E; apply Hk; mem.

Section runs.
Local Open Scope R_scope.
Implicit Types (surfaces : list surface) (inputs outputs : gmap string array).
Implicit Types (partials : gmap (string * string) array).

Lemma compute_cons name data surfaces inputs outputs :
  compute ((name, data) :: surfaces) inputs outputs =
  match compute [(name, data)] inputs outputs with
  | (outputs', Ok _) => compute surfaces inputs outputs'
  | (outputs', Raise e) => (outputs', Raise e)
  end.
Proof. apply (for_each_app [(name, data)] surfaces). Qed.

Lemma compute_partials_cons name data surfaces inputs partials :
  compute_partials ((name, data) :: surfaces) inputs partials =
  match compute_partials [(name, data)] inputs partials with
  | (partials', Ok _) => compute_partials surfaces inputs partials'
  | (partials', Raise e) => (partials', Raise e)
  end.
Proof. apply (for_each_app [(name, data)] surfaces). Qed.

(** The first input of a surface that is not bound stops either method. *)
Lemma compute_surface_KeyError name data surfaces inputs outputs :
  let key := if inputs !! tube_name name "radius" is Some _
             then tube_name name "thickness" else tube_name name "radius" in
  inputs !! key = None →
  compute ((name, data) :: surfaces) inputs outputs
  = (outputs, Raise (KeyError key)).
Proof.
  intros key Hkey. subst key. unfold compute. simpl.
  unfold mbind, M_bind, lift, getitem.
  destruct (inputs !! tube_name name "radius") as [radius|];
    [by rewrite Hkey | done].
Qed.

Lemma compute_partials_surface_KeyError name data surfaces inputs partials :
  let key := if inputs !! tube_name name "radius" is Some _
             then tube_name name "thickness" else tube_name name "radius" in
  inputs !! key = None →
  compute_partials ((name, data) :: surfaces) inputs partials
  = (partials, Raise (KeyError key)).
Proof.
  intros key Hkey. subst key. unfold compute_partials. simpl.
  unfold mbind, M_bind, lift, getitem.
  destruct (inputs !! tube_name name "radius") as [radius|];
    [by rewrite Hkey | done].
Qed.

Lemma compute_surface_frame name data inputs outputs key :
  (∀ out, out ∈ ["A"; "Iy"; "Iz"; "J"] → key ≠ element_name name out) →
  (compute [(name, data)] inputs outputs).1 !! key = outputs !! key.
Proof.
  intros Hk. unfold compute. simpl.
  unfold mbind, M_bind, lift, getitem, setitem, modify.
  destruct (inputs !! tube_name name "radius") as [radius|]; [|done].
  destruct (inputs !! tube_name name "thickness") as [thickness|]; [|done].
  destruct (np_sub radius thickness) as [r1|]; [|done].
  destruct (np_sub (np_pow radius 2) (np_pow r1 2)) as [d2|]; [|done].
  destruct (np_sub (np_pow radius 4) (np_pow r1 4)) as [d4|]; simpl;
    by rewrite !lookup_insert_ne by other_name Hk.
Qed.

Lemma compute_surface_ext name data inputs inputs' outputs :
  inputs !! tube_name name "radius" = inputs' !! tube_name name "radius" →
  inputs !! tube_name name "thickness" = inputs' !! tube_name name "thickness" →
  compute [(name, data)] inputs outputs = compute [(name, data)] inputs' outputs.
Proof.
  intros Hr Ht. unfold compute. simpl.
  unfold mbind, M_bind, lift, getitem. by rewrite Hr, Ht.
Qed.

Lemma compute_partials_surface_ext name data inputs inputs' partials :
  inputs !! tube_name name "radius" = inputs' !! tube_name name "radius" →
  inputs !! tube_name name "thickness" = inputs' !! tube_name name "thickness" →
  compute_partials [(name, data)] inputs partials
  = compute_partials [(name, data)] inputs' partials.
Proof.
  intros Hr Ht. unfold compute_partials. simpl.
  unfold mbind, M_bind, lift, getitem. by rewrite Hr, Ht.
Qed.

Lemma compute_partials_surface_frame name data inputs partials key :
  (∀ out wrt, out ∈ ["A"; "Iy"; "Iz"; "J"] → wrt ∈ ["radius"; "thickness"] →
     key ≠ (element_name name out, tube_name name wrt)) →
  (compute_partials [(name, data)] inputs partials).1 !! key = partials !! key.
Proof.
  intros Hk. unfold compute_partials. simpl.
  unfold mbind, M_bind, lift, getitem, setitem, modify.
  destruct (inputs !! tube_name name "radius") as [radius|]; [|done].
  destruct (inputs !! tube_name name "thickness") as [thickness|]; [|done].
  destruct (np_sub radius thickness) as [r1|]; [|done].
  repeat (match goal with
          | |- context [match np_sub ?a ?b with _ => _ end] =>
              destruct (np_sub a b)
          end);
    simpl; by rewrite ?lookup_insert_ne by other_name Hk.
Qed.

Lemma compute_frame surfaces inputs outputs0 key :
  (∀ name data out, (name, data) ∈ surfaces → out ∈ ["A"; "Iy"; "Iz"; "J"] →
     key ≠ element_name name out) →
  (compute surfaces inputs outputs0).1 !! key = outputs0 !! key.
Proof.
  revert outputs0.
  induction surfaces as [|[name data] surfaces IH]; intros outputs0 Hk; [done|].
  rewrite compute_cons.
  pose proof (compute_surface_frame name data inputs outputs0 key) as Hone.
  destruct (compute [(name, data)] inputs outputs0) as [outputs1 [[]|e]];
    simpl in Hone.
  - rewrite IH by (intros name' data' out Hin; apply (Hk name' data' out); by right).
    apply Hone. intros out. apply (Hk name data out). mem.
  - apply Hone. intros out. apply (Hk name data out). mem.
Qed.

Lemma compute_partials_frame surfaces inputs partials0 key :
  (∀ name data out wrt, (name, data) ∈ surfaces →
     out ∈ ["A"; "Iy"; "Iz"; "J"] → wrt ∈ ["radius"; "thickness"] →
     key ≠ (element_name name out, tube_name name wrt)) →
  (compute_partials surfaces inputs partials0).1 !! key = partials0 !! key.
Proof.
  revert partials0.
  induction surfaces as [|[name data] surfaces IH]; intros partials0 Hk; [done|].
  rewrite compute_partials_cons.
  pose proof (compute_partials_surface_frame name data inputs partials0 key)
    as Hone.
  destruct (compute_partials [(name, data)] inputs partials0)
    as [partials1 [[]|e]]; simpl in Hone.
  - rewrite IH
      by (intros name' data' out wrt Hin; apply (Hk name' data' out wrt); by right).
    apply Hone. intros out wrt. apply (Hk name data out wrt). mem.
  - apply Hone. intros out wrt. apply (Hk name data out wrt). mem.
Qed.

Lemma compute_ext surfaces inputs inputs' outputs :
  (∀ name data wrt, (name, data) ∈ surfaces → wrt ∈ ["radius"; "thickness"] →
     inputs !! tube_name name wrt = inputs' !! tube_name name wrt) →
  compute surfaces inputs outputs = compute surfaces inputs' outputs.
Proof.
  revert outputs.
  induction surfaces as [|[name data] surfaces IH]; intros outputs Hag; [done|].
  rewrite (compute_cons name data surfaces inputs),
    (compute_cons name data surfaces inputs').
  rewrite (compute_surface_ext name data inputs inputs')
    by (apply (Hag name data); mem).
  destruct (compute [(name, data)] inputs' outputs) as [outputs1 [[]|e]]; [|done].
  apply IH. intros name' data' wrt Hin. apply (Hag name' data' wrt). by right.
Qed.

Lemma compute_partials_ext surfaces inputs inputs' partials :
  (∀ name data wrt, (name, data) ∈ surfaces → wrt ∈ ["radius"; "thickness"] →
     inputs !! tube_name name wrt = inputs' !! tube_name name wrt) →
  compute_partials surfaces inputs partials
  = compute_partials surfaces inputs' partials.
Proof.
  revert partials.
  induction surfaces as [|[name data] surfaces IH]; intros partials Hag; [done|].
  rewrite (compute_partials_cons name data surfaces inputs),
    (compute_partials_cons name data surfaces inputs').
  rewrite (compute_partials_surface_ext name data inputs inputs')
    by (apply (Hag name data); mem).
  destruct (compute_partials [(name, data)] inputs' partials)
    as [partials1 [[]|e]]; [|done].
  apply IH. intros name' data' wrt Hin. apply (Hag name' data' wrt). by right.
Qed.



(** A name is an output name of a listed surface, or of none. *)
Lemma output_name_cases surfaces (key : string) :
  (∃ name data out, (name, data) ∈ surfaces ∧ out ∈ ["A"; "Iy"; "Iz"; "J"] ∧
                    key = element_name name out) ∨
  (∀ name data out, (name, data) ∈ surfaces → out ∈ ["A"; "Iy"; "Iz"; "J"] →
                    key ≠ element_name name out).
Proof.
  induction surfaces as [|[name data] surfaces [IH|IH]].
  - right. intros name data out Hin. by apply elem_of_nil in Hin.
  - left. destruct IH as (name' & data' & out & Hin & Hout & ->).
    exists name', data', out. split; [by right | done].
  - destruct (decide (key = element_name name "A")) as [->|HA];
      [left; exists name, data, "A"; split; [mem | split; [mem | done]]|].
    destruct (decide (key = element_name name "Iy")) as [->|HIy];
      [left; exists name, data, "Iy"; split; [mem | split; [mem | done]]|].
    destruct (decide (key = element_name name "Iz")) as [->|HIz];
      [left; exists name, data, "Iz"; split; [mem | split; [mem | done]]|].
    destruct (decide (key = element_name name "J")) as [->|HJ];
      [left; exists name, data, "J"; split; [mem | split; [mem | done]]|].
    right. intros name' data' out [[= -> ->]|Hin]%elem_of_cons Hout.
    + set_unfold in Hout. by destruct Hout as [->|[->|[->|[->|[]]]]].
    + by apply (IH name' data' out).
Qed.

End runs.

(** ** Registered names *)

Section registered.
Implicit Types (surfaces : list surface) (c : component).

Lemma setup_surface_KeyError name data surfaces c :
  data !! "num_points_z_half" = None →
  setup ((name, data) :: surfaces) c
  = (c, Raise (KeyError "num_points_z_half")).
Proof.
  intros Hkey. unfold setup. simpl.
  unfold mbind, M_bind, lift, getitem. by rewrite Hkey.
Qed.

(** The names and pairs a successful [setup] has registered, by surface name. *)
Lemma setup_names surfaces c0 c :
  setup surfaces c0 = (c, Ok tt) →
  (var_inputs c).*1 = (var_inputs c0).*1 ++
    (surfaces.*1 ≫= λ name, tube_name name <$> ["radius"; "thickness"]) ∧
  (var_outputs c).*1 = (var_outputs c0).*1 ++
    (surfaces.*1 ≫= λ name, element_name name <$> ["A"; "Iy"; "Iz"; "J"]) ∧
  (λ s, (s.1.1.1, s.1.1.2)) <$> subjacs c =
    ((λ s, (s.1.1.1, s.1.1.2)) <$> subjacs c0) ++
    (surfaces.*1 ≫= λ name,
       out ← ["A"; "Iy"; "Iz"; "J"]; wrt ← ["radius"; "thickness"];
       [(element_name name out, tube_name name wrt)]).
Proof.
  revert c0. induction surfaces as [|[name data] surfaces IH]; intros c0 Hrun.
  { injection Hrun as <-. by rewrite !app_nil_r. }
  destruct (data !! "num_points_z_half") as [h|] eqn:Hh;
    [|by rewrite setup_surface_KeyError in Hrun].
  rewrite setup_cons, setup_surface in Hrun by eauto.
  destruct (IH _ Hrun) as (-> & -> & ->). simpl.
  rewrite !fmap_app. simpl. by rewrite <- !app_assoc.
Qed.

Lemma setup_names_fresh surfaces c :
  setup surfaces (Component [] [] []) = (c, Ok tt) →
  (var_inputs c).*1 =
    (surfaces.*1 ≫= λ name, tube_name name <$> ["radius"; "thickness"]) ∧
  (var_outputs c).*1 =
    (surfaces.*1 ≫= λ name, element_name name <$> ["A"; "Iy"; "Iz"; "J"]) ∧
  (λ s, (s.1.1.1, s.1.1.2)) <$> subjacs c =
    (surfaces.*1 ≫= λ name,
       out ← ["A"; "Iy"; "Iz"; "J"]; wrt ← ["radius"; "thickness"];
       [(element_name name out, tube_name name wrt)]).
Proof. intros Hrun. exact (setup_names surfaces _ c Hrun). Qed.

Lemma setup_success_keys surfaces c0 c name data :
  setup surfaces c0 = (c, Ok tt) → (name, data) ∈ surfaces →
  is_Some (data !! "num_points_z_half").
Proof.
  revert c0. induction surfaces as [|[name' data'] surfaces IH]; intros c0 Hrun Hin;
    [by apply elem_of_nil in Hin|].
  destruct (data' !! "num_points_z_half") as [h|] eqn:Hh;
    [|by rewrite setup_surface_KeyError in Hrun].
  apply elem_of_cons in Hin as [[= -> ->]|Hin]; [eauto|].
  rewrite setup_cons, setup_surface in Hrun by eauto. eauto.
Qed.

(** Shapes and index vectors a successful [setup] has registered. *)
Lemma setup_shapes surfaces c0 c :
  setup surfaces c0 = (c, Ok tt) →
  var_outputs c = var_outputs c0 ++
    (surfaces ≫= λ '(name, data),
       out_name ← ["A"; "Iy"; "Iz"; "J"];
       [(element_name name out_name, n_elements data)]) ∧
  subjacs c = subjacs c0 ++
    (surfaces ≫= λ '(name, data),
       out_name ← ["A"; "Iy"; "Iz"; "J"];
       in_name ← ["radius"; "thickness"];
       [(element_name name out_name, tube_name name in_name,
         np_arange (n_elements data), np_arange (n_elements data))]).
Proof.
  revert c0. induction surfaces as [|[name data] surfaces IH]; intros c0 Hrun.
  { injection Hrun as <-. by rewrite !app_nil_r. }
  destruct (data !! "num_points_z_half") as [h|] eqn:Hh;
    [|by rewrite setup_surface_KeyError in Hrun].
  rewrite setup_cons, setup_surface in Hrun by eauto.
  destruct (IH _ Hrun) as (-> & ->). simpl. by rewrite <- !app_assoc.
Qed.

Lemma np_arange_length (n : Z) : length (np_arange n) = Z.to_nat n.
Proof. unfold np_arange. by rewrite length_fmap, length_seq. Qed.

Lemma pair_name_cases surfaces (pair : string * string) :
  (∃ name data out wrt, (name, data) ∈ surfaces ∧
     out ∈ ["A"; "Iy"; "Iz"; "J"] ∧ wrt ∈ ["radius"; "thickness"] ∧
     pair = (element_name name out, tube_name name wrt)) ∨
  (∀ name data out wrt, (name, data) ∈ surfaces →
     out ∈ ["A"; "Iy"; "Iz"; "J"] → wrt ∈ ["radius"; "thickness"] →
     pair ≠ (element_name name out, tube_name name wrt)).
Proof.
  induction surfaces as [|[name data] surfaces [IH|IH]].
  - right. intros name data out wrt Hin. by apply elem_of_nil in Hin.
  - left. destruct IH as (name' & data' & out & wrt & Hin & Hout & Hwrt & ->).
    exists name', data', out, wrt. split; [by right | done].
  - destruct (decide (pair ∈ (out ← ["A"; "Iy"; "Iz"; "J"];
                              wrt ← ["radius"; "thickness"];
                              [(element_name name out, tube_name name wrt)])))
      as [Hhere|Hnot].
    + left. apply list_elem_of_bind in Hhere as (out & Hhere & Hout).
      apply list_elem_of_bind in Hhere as (wrt & Hhere & Hwrt).
      apply list_elem_of_singleton in Hhere.
      exists name, data, out, wrt. split; [mem | done].
    + right. intros name' data' out wrt [[= -> ->]|Hin]%elem_of_cons Hout Hwrt.
      * intros ->. apply Hnot. apply list_elem_of_bind. exists out.
        split; [|done]. apply list_elem_of_bind. exists wrt.
        split; [|done]. by apply list_elem_of_singleton.
      * by apply (IH name' data' out wrt).
Qed.

Global Instance tube_name_inj_r name : Inj (=) (=) (tube_name name).
Proof.
  intros k1 k2 E. unfold tube_name in E.
  by apply (inj (String.append name)), (inj (String.append "_tube_")) in E.
Qed.

Global Instance element_name_inj_r name : Inj (=) (=) (element_name name).
Proof.
  intros k1 k2 E. unfold element_name in E.
  by apply (inj (String.append name)), (inj (String.append "_element_")) in E.
Qed.

Lemma tube_name_not_element_name (s1 s2 k1 k2 : string) :
  k1 ∈ ["radius"; "thickness"] → k2 ∈ ["A"; "Iy"; "Iz"; "J"] →
  tube_name s1 k1 ≠ element_name s2 k2.
Proof.
  intros H1 H2 E. unfold tube_name, element_name in E.
  apply append_eq_rev in E. set_unfold in H1. set_unfold in H2.
  destruct H1 as [?|[?|[]]], H2 as [?|[?|[?|[?|[]]]]]; subst;
    simpl in E; discriminate.
Qed.

End registered.

(** ** Broadcasting a thickness of length one, and the largest entry *)

Section broadcasting.
Local Open Scope R_scope.

Lemma np_sub_scalar_r (a : array) (t : R) :
  np_sub a [t] = Ok ((λ x, x - t) <$> a).
Proof.
  unfold np_sub. by case_decide as Hlen; destruct a as [|x [|x' a]].
Qed.

Lemma elementwise_scalar (f1 f2 g : R → R) (radius : array) :
  g <$> zip_with Rminus (f1 <$> radius) (f2 <$> radius)
  = (λ r, g (f1 r - f2 r)) <$> radius.
Proof. induction radius as [|r radius IH]; csimpl; [done | by f_equal]. Qed.

Lemma elementwise_scalar_length (f1 f2 : R → R) (radius : array) (t : R) :
  length (f1 <$> radius) = length (f2 <$> ((λ x, x - t) <$> radius)).
Proof. by rewrite !length_fmap. Qed.

Lemma foldl_Rmax_spec (x : R) (a : array) :
  (foldl Rmax x a = x ∨ foldl Rmax x a ∈ a) ∧
  x <= foldl Rmax x a ∧
  ∀ y, y ∈ a → y <= foldl Rmax x a.
Proof.
  revert x. induction a as [|y a IH]; intros x; simpl.
  { split; [by left|]. split; [lra|]. intros y Hy. by apply elem_of_nil in Hy. }
  destruct (IH (Rmax x y)) as (Hatt & Hge & Hall).
  pose proof (Rmax_l x y). pose proof (Rmax_r x y).
  split; [|split].
  - destruct Hatt as [Hatt|Hatt]; [|right; by right].
    rewrite Hatt. unfold Rmax. destruct (Rle_dec x y); [right; by left | by left].
  - lra.
  - intros z [->|Hz]%elem_of_cons; [lra | by apply Hall].
Qed.

End broadcasting.

(** ** Further properties of the three methods *)

Section extras.
Local Open Scope R_scope.
Implicit Types (surfaces : list surface) (inputs outputs : gmap string array).
Implicit Types (partials : gmap (string * string) array).

(** X1. A surface whose radius is not bound in [inputs], or whose radius is
    bound and whose thickness is not, stops [compute] and [compute_partials]
    with a [KeyError] on that name; the store is as the surfaces before it
    left it, and the surfaces after it are not reached. *)
Theorem missing_input_stops surfaces1 name data surfaces2 inputs
    outputs0 outputs1 partials0 partials1 :
  let key := if inputs !! tube_name name "radius" is Some _
             then tube_name name "thickness" else tube_name name "radius" in
  compute surfaces1 inputs outputs0 = (outputs1, Ok tt) →
  compute_partials surfaces1 inputs partials0 = (partials1, Ok tt) →
  inputs !! key = None →
  compute (surfaces1 ++ (name, data) :: surfaces2) inputs outputs0
    = (outputs1, Raise (KeyError key)) ∧
  compute_partials (surfaces1 ++ (name, data) :: surfaces2) inputs partials0
    = (partials1, Raise (KeyError key)).
Proof.
  intros key Hrun Hprun Hkey. split.
  - rewrite compute_app, Hrun. by apply compute_surface_KeyError.
  - rewrite compute_partials_app, Hprun.
    by apply compute_partials_surface_KeyError.
Qed.

Lemma missing_input_stops_wing :
  compute (wing ++ ("tail", ∅) :: wing)
    (<["tail_tube_radius" := [1]]> (wing_inputs [1] [/ 10])) ∅
    = ((compute wing (<["tail_tube_radius" := [1]]> (wing_inputs [1] [/ 10])) ∅).1,
       Raise (KeyError "tail_tube_thickness")) ∧
  compute_partials (wing ++ ("tail", ∅) :: wing)
    (<["tail_tube_radius" := [1]]> (wing_inputs [1] [/ 10])) ∅
    = ((compute_partials wing
          (<["tail_tube_radius" := [1]]> (wing_inputs [1] [/ 10])) ∅).1,
       Raise (KeyError "tail_tube_thickness")).
Proof.
  exact (missing_input_stops wing "tail" ∅ wing
           (<["tail_tube_radius" := [1]]> (wing_inputs [1] [/ 10]))
           ∅ (compute wing
                (<["tail_tube_radius" := [1]]> (wing_inputs [1] [/ 10])) ∅).1
           ∅ (compute_partials wing
                (<["tail_tube_radius" := [1]]> (wing_inputs [1] [/ 10])) ∅).1
           eq_refl eq_refl eq_refl).
Defined.

(** X2. A surface whose data lacks ['num_points_z_half'] stops [setup] with a
    [KeyError] on that key; what the surfaces before it registered stays
    registered, nothing is registered for it or for the surfaces after it. *)
Theorem setup_missing_node_count surfaces1 name data surfaces2 c0 c1 :
  setup surfaces1 c0 = (c1, Ok tt) →
  data !! "num_points_z_half" = None →
  setup (surfaces1 ++ (name, data) :: surfaces2) c0
  = (c1, Raise (KeyError "num_points_z_half")).
Proof.
  intros Hrun Hkey. unfold setup in *. rewrite for_each_app, Hrun. simpl.
  unfold mbind, M_bind, lift, getitem. by rewrite Hkey.
Qed.

Lemma setup_missing_node_count_wing :
  setup (wing ++ ("tail", {["num_y" := 9%Z]}) :: wing) (Component [] [] [])
  = ((setup wing (Component [] [] [])).1,
     Raise (KeyError "num_points_z_half")).
Proof.
  apply (setup_missing_node_count wing "tail" {["num_y" := 9%Z]} wing
           (Component [] [] []) (setup wing (Component [] [] [])).1).
  - vm_compute. reflexivity.
  - reflexivity.
Defined.

(** X3. Whatever the inputs, and whether the call returns or stops,
    [compute] changes no name of [outputs] other than the four output names
    of the listed surfaces, and [compute_partials] changes no pair of
    [partials] other than the eight (output, input) pairs of the listed
    surfaces. *)
Theorem only_own_names_written surfaces inputs outputs0 partials0
    (key : string) (pair : string * string) :
  (∀ name data out, (name, data) ∈ surfaces → out ∈ ["A"; "Iy"; "Iz"; "J"] →
     key ≠ element_name name out) →
  (∀ name data out wrt, (name, data) ∈ surfaces →
     out ∈ ["A"; "Iy"; "Iz"; "J"] → wrt ∈ ["radius"; "thickness"] →
     pair ≠ (element_name name out, tube_name name wrt)) →
  (compute surfaces inputs outputs0).1 !! key = outputs0 !! key ∧
  (compute_partials surfaces inputs partials0).1 !! pair = partials0 !! pair.
Proof.
  intros Hkey Hpair. split;
    [by apply compute_frame | by apply compute_partials_frame].
Qed.

(** X4. Both methods read nothing but the radius and thickness names of the
    listed surfaces: two input stores that agree on those names give the
    same store and the same outcome. *)
Theorem only_own_inputs_read surfaces inputs inputs' outputs0 partials0 :
  (∀ name data wrt, (name, data) ∈ surfaces → wrt ∈ ["radius"; "thickness"] →
     inputs !! tube_name name wrt = inputs' !! tube_name name wrt) →
  compute surfaces inputs outputs0 = compute surfaces inputs' outputs0 ∧
  compute_partials surfaces inputs partials0
  = compute_partials surfaces inputs' partials0.
Proof.
  intros Hag. split; [by apply compute_ext | by apply compute_partials_ext].
Qed.

Lemma only_own_names_written_wing :
  (compute wing (wing_inputs [1] [/ 10]) {["other" := [5]]}).1 !! "other"
    = ({["other" := [5]]} : gmap string array) !! "other" ∧
  (compute_partials wing (wing_inputs [1] [/ 10]) ∅).1
    !! ("wing_element_A", "wing_element_A")
    = (∅ : gmap (string * string) array) !! ("wing_element_A", "wing_element_A").
Proof.
  apply (only_own_names_written wing (wing_inputs [1] [/ 10])
           {["other" := [5]]} ∅ "other" ("wing_element_A", "wing_element_A")).
  - intros name data out Hin Hout. apply list_elem_of_singleton in Hin.
    injection Hin as -> ->. set_unfold in Hout.
    destruct Hout as [->|[->|[->|[->|[]]]]]; discriminate.
  - intros name data out wrt Hin Hout Hwrt. apply list_elem_of_singleton in Hin.
    injection Hin as -> ->. set_unfold in Hwrt.
    destruct Hwrt as [->|[->|[]]]; intros [= _ E]; discriminate.
Defined.

Lemma only_own_inputs_read_wing :
  compute wing (wing_inputs [1] [/ 10]) ∅
    = compute wing (<["unrelated" := [7]]> (wing_inputs [1] [/ 10])) ∅ ∧
  compute_partials wing (wing_inputs [1] [/ 10]) ∅
    = compute_partials wing (<["unrelated" := [7]]> (wing_inputs [1] [/ 10])) ∅.
Proof.
  apply (only_own_inputs_read wing (wing_inputs [1] [/ 10])
           (<["unrelated" := [7]]> (wing_inputs [1] [/ 10])) ∅ ∅).
  intros name data wrt Hin Hwrt. apply list_elem_of_singleton in Hin.
  injection Hin as -> ->. set_unfold in Hwrt.
  destruct Hwrt as [->|[->|[]]]; reflexivity.
Defined.

(** X5. Entry [j] of every output of a surface, and of every stored partial
    of that surface, depends on nothing but entry [j] of that surface's
    radius and thickness: other entries, other surfaces and the previous
    content of the stores have no influence. *)
Theorem entries_are_local surfaces inputs inputs' outputs0 outputs0'
    partials0 partials0' name data j :
  well_shaped surfaces inputs → well_shaped surfaces inputs' →
  (name, data) ∈ surfaces →
  entry_of inputs (tube_name name "radius") j
    = entry_of inputs' (tube_name name "radius") j →
  entry_of inputs (tube_name name "thickness") j
    = entry_of inputs' (tube_name name "thickness") j →
  ∀ out, out ∈ ["A"; "Iy"; "Iz"; "J"] →
    entry_of (compute surfaces inputs outputs0).1 (element_name name out) j
      = entry_of (compute surfaces inputs' outputs0').1 (element_name name out) j ∧
    ∀ wrt, wrt ∈ ["radius"; "thickness"] →
      entry_of (compute_partials surfaces inputs partials0).1
        (element_name name out, tube_name name wrt) j
      = entry_of (compute_partials surfaces inputs' partials0').1
          (element_name name out, tube_name name wrt) j.
Proof.
  intros Hws Hws' Hin Hrj Htj.
  destruct (Hws name data Hin) as (radius & thickness & Hr & Ht & _).
  destruct (Hws' name data Hin) as (radius' & thickness' & Hr' & Ht' & _).
  unfold entry_of in Hrj, Htj. rewrite Hr, Hr' in Hrj. rewrite Ht, Ht' in Htj.
  simpl in Hrj, Htj.
  destruct (compute_ok surfaces inputs outputs0 Hws) as (outputs & -> & Hget).
  destruct (compute_ok surfaces inputs' outputs0' Hws') as (outputs' & -> & Hget').
  destruct (compute_partials_ok surfaces inputs partials0 Hws)
    as (partials & -> & Hpget).
  destruct (compute_partials_ok surfaces inputs' partials0' Hws')
    as (partials' & -> & Hpget').
  destruct (Hget name data radius thickness Hin Hr Ht) as (HA & HIy & HIz & HJ).
  destruct (Hget' name data radius' thickness' Hin Hr' Ht')
    as (HA' & HIy' & HIz' & HJ').
  destruct (Hpget name data radius thickness Hin Hr Ht)
    as (H1 & H2 & H3 & H4 & H5 & H6 & H7 & H8).
  destruct (Hpget' name data radius' thickness' Hin Hr' Ht')
    as (H1' & H2' & H3' & H4' & H5' & H6' & H7' & H8').
  intros out Hout. simpl. unfold entry_of.
  set_unfold in Hout. destruct Hout as [->|[->|[->|[->|[]]]]].
  - rewrite HA, HA'. simpl. rewrite !lookup_zip_with, Hrj, Htj.
    split; [done|]. intros wrt Hwrt. set_unfold in Hwrt.
    destruct Hwrt as [->|[->|[]]].
    + rewrite H1, H1'. simpl. by rewrite !lookup_zip_with, Hrj, Htj.
    + rewrite H2, H2'. simpl. by rewrite !lookup_zip_with, Hrj, Htj.
  - rewrite HIy, HIy'. simpl. rewrite !lookup_zip_with, Hrj, Htj.
    split; [done|]. intros wrt Hwrt. set_unfold in Hwrt.
    destruct Hwrt as [->|[->|[]]].
    + rewrite H3, H3'. simpl. by rewrite !lookup_zip_with, Hrj, Htj.
    + rewrite H4, H4'. simpl. by rewrite !lookup_zip_with, Hrj, Htj.
  - rewrite HIz, HIz'. simpl. rewrite !lookup_zip_with, Hrj, Htj.
    split; [done|]. intros wrt Hwrt. set_unfold in Hwrt.
    destruct Hwrt as [->|[->|[]]].
    + rewrite H5, H5'. simpl. by rewrite !lookup_zip_with, Hrj, Htj.
    + rewrite H6, H6'. simpl. by rewrite !lookup_zip_with, Hrj, Htj.
  - rewrite HJ, HJ'. simpl. rewrite !lookup_zip_with, Hrj, Htj.
    split; [done|]. intros wrt Hwrt. set_unfold in Hwrt.
    destruct Hwrt as [->|[->|[]]].
    + rewrite H7, H7'. simpl. by rewrite !lookup_zip_with, Hrj, Htj.
    + rewrite H8, H8'. simpl. by rewrite !lookup_zip_with, Hrj, Htj.
Qed.

Lemma entries_are_local_wing :
  well_shaped wing (wing_inputs [1; 2] [/ 10; / 10]) ∧
  ∀ out, out ∈ ["A"; "Iy"; "Iz"; "J"] →
    entry_of (compute wing (wing_inputs [1; 2] [/ 10; / 10]) ∅).1
      (element_name "wing" out) 0
    = entry_of (compute wing (wing_inputs [1; 3] [/ 10; / 5]) {["x" := []]}).1
        (element_name "wing" out) 0 ∧
    ∀ wrt, wrt ∈ ["radius"; "thickness"] →
      entry_of (compute_partials wing (wing_inputs [1; 2] [/ 10; / 10]) ∅).1
        (element_name "wing" out, tube_name "wing" wrt) 0
      = entry_of (compute_partials wing (wing_inputs [1; 3] [/ 10; / 5]) ∅).1
          (element_name "wing" out, tube_name "wing" wrt) 0.
Proof.
  split; [apply wing_well_shaped; reflexivity|].
  apply (entries_are_local wing (wing_inputs [1; 2] [/ 10; / 10])
           (wing_inputs [1; 3] [/ 10; / 5]) ∅ {["x" := []]} ∅ ∅
           "wing" {["num_points_z_half" := 3%Z]} 0%nat).
  - apply wing_well_shaped. reflexivity.
  - apply wing_well_shaped. reflexivity.
  - apply list_elem_of_here.
  - reflexivity.
  - reflexivity.
Defined.

(** X6. Running [compute] again on the store it has just produced changes
    nothing: every output is recomputed from the inputs alone. *)
Theorem compute_idempotent surfaces inputs outputs0 :
  well_shaped surfaces inputs →
  compute surfaces inputs (compute surfaces inputs outputs0).1
  = compute surfaces inputs outputs0.
Proof.
  intros Hws.
  destruct (compute_ok surfaces inputs outputs0 Hws) as (outputs & Hrun & Hget).
  rewrite Hrun. simpl.
  destruct (compute_ok surfaces inputs outputs Hws) as (outputs2 & Hrun2 & Hget2).
  rewrite Hrun2. f_equal. apply map_eq. intros key.
  destruct (output_name_cases surfaces key)
    as [(name & data & out & Hin & Hout & ->)|Hno].
  - destruct (Hws name data Hin) as (radius & thickness & Hr & Ht & _).
    destruct (Hget name data radius thickness Hin Hr Ht) as (HA & HIy & HIz & HJ).
    destruct (Hget2 name data radius thickness Hin Hr Ht)
      as (HA2 & HIy2 & HIz2 & HJ2).
    set_unfold in Hout. destruct Hout as [->|[->|[->|[->|[]]]]]; congruence.
  - pose proof (compute_frame surfaces inputs outputs key Hno) as Hframe.
    by rewrite Hrun2 in Hframe.
Qed.

Lemma compute_idempotent_wing :
  well_shaped wing (wing_inputs [1] [/ 10]) ∧
  compute wing (wing_inputs [1] [/ 10])
    (compute wing (wing_inputs [1] [/ 10]) {["wing_element_A" := [7]]}).1
  = compute wing (wing_inputs [1] [/ 10]) {["wing_element_A" := [7]]}.
Proof.
  split; [apply wing_well_shaped; reflexivity|].
  apply (compute_idempotent wing (wing_inputs [1] [/ 10])
           {["wing_element_A" := [7]]}).
  apply wing_well_shaped. reflexivity.
Defined.



(** X13. Evaluation and registration agree on names.  After a successful
    [setup] on a fresh component, and on inputs whose radius and thickness
    have one length per surface, the names bound by [compute] in a fresh
    store are exactly the registered output names, the pairs bound by
    [compute_partials] are exactly the registered (output, input) pairs, and
    every name the two methods read is a registered input name. *)
Theorem evaluation_matches_registration surfaces inputs c :
  setup surfaces (Component [] [] []) = (c, Ok tt) →
  well_shaped surfaces inputs →
  (∀ key, is_Some ((compute surfaces inputs ∅).1 !! key)
          ↔ key ∈ (var_outputs c).*1) ∧
  (∀ pair, is_Some ((compute_partials surfaces inputs ∅).1 !! pair)
           ↔ pair ∈ ((λ s, (s.1.1.1, s.1.1.2)) <$> subjacs c)) ∧
  (∀ name data wrt, (name, data) ∈ surfaces → wrt ∈ ["radius"; "thickness"] →
     tube_name name wrt ∈ (var_inputs c).*1).
Proof.
  intros Hsetup Hws.
  destruct (setup_names_fresh surfaces c Hsetup) as (-> & -> & ->).
  destruct (compute_ok surfaces inputs ∅ Hws) as (outputs & Hrun & Hget).
  destruct (compute_partials_ok surfaces inputs ∅ Hws)
    as (partials & Hprun & Hpget).
  split; [|split].
  - intros key. split.
    + intros Hsome.
      destruct (output_name_cases surfaces key)
        as [(name & data & out & Hin & Hout & ->)|Hno].
      * apply list_elem_of_bind. exists name. split.
        { apply list_elem_of_fmap. eauto. }
        apply list_elem_of_fmap. by exists (name, data).
      * rewrite (compute_frame surfaces inputs ∅ key Hno) in Hsome.
        rewrite lookup_empty in Hsome. by destruct Hsome.
    + intros (name & Hkey & Hname)%list_elem_of_bind.
      apply list_elem_of_fmap in Hkey as (out & -> & Hout).
      apply list_elem_of_fmap in Hname as ([name' data] & -> & Hin). simpl.
      destruct (Hws name' data Hin) as (radius & thickness & Hr & Ht & _).
      destruct (Hget name' data radius thickness Hin Hr Ht)
        as (HA & HIy & HIz & HJ).
      rewrite Hrun. simpl. set_unfold in Hout.
      destruct Hout as [->|[->|[->|[->|[]]]]]; eauto.
  - intros pair. split.
    + intros Hsome.
      destruct (pair_name_cases surfaces pair)
        as [(name & data & out & wrt & Hin & Hout & Hwrt & ->)|Hno].
      * apply list_elem_of_bind. exists name. split.
        { apply list_elem_of_bind. exists out. split; [|done].
          apply list_elem_of_bind. exists wrt. split; [|done].
          by apply list_elem_of_singleton. }
        apply list_elem_of_fmap. by exists (name, data).
      * rewrite (compute_partials_frame surfaces inputs ∅ pair Hno) in Hsome.
        rewrite lookup_empty in Hsome. by destruct Hsome.
    + intros (name & Hpair & Hname)%list_elem_of_bind.
      apply list_elem_of_bind in Hpair as (out & Hpair & Hout).
      apply list_elem_of_bind in Hpair as (wrt & Hpair & Hwrt).
      apply list_elem_of_singleton in Hpair as ->.
      apply list_elem_of_fmap in Hname as ([name' data] & -> & Hin). simpl.
      destruct (Hws name' data Hin) as (radius & thickness & Hr & Ht & _).
      destruct (Hpget name' data radius thickness Hin Hr Ht)
        as (H1 & H2 & H3 & H4 & H5 & H6 & H7 & H8).
      rewrite Hprun. simpl. set_unfold in Hout. set_unfold in Hwrt.
      destruct Hout as [->|[->|[->|[->|[]]]]], Hwrt as [->|[->|[]]]; eauto.
  - intros name data wrt Hin Hwrt.
    apply list_elem_of_bind. exists name. split.
    + apply list_elem_of_fmap. eauto.
    + apply list_elem_of_fmap. by exists (name, data).
Qed.

Lemma evaluation_matches_registration_wing :
  well_shaped wing (wing_inputs [1] [/ 10]) ∧
  (∀ key, is_Some ((compute wing (wing_inputs [1] [/ 10]) ∅).1 !! key)
          ↔ key ∈ (var_outputs (setup wing (Component [] [] [])).1).*1) ∧
  (∀ pair, is_Some ((compute_partials wing (wing_inputs [1] [/ 10]) ∅).1 !! pair)
           ↔ pair ∈ ((λ s, (s.1.1.1, s.1.1.2))
                       <$> subjacs (setup wing (Component [] [] [])).1)) ∧
  (∀ name data wrt, (name, data) ∈ wing → wrt ∈ ["radius"; "thickness"] →
     tube_name name wrt ∈ (var_inputs (setup wing (Component [] [] [])).1).*1).
Proof.
  split; [apply wing_well_shaped; reflexivity|].
  apply (evaluation_matches_registration wing (wing_inputs [1] [/ 10])
           (setup wing (Component [] [] [])).1).
  - vm_compute. reflexivity.
  - apply wing_well_shaped. reflexivity.
Defined.

(** X14. Evaluation and registration agree on lengths.  After a successful
    [setup] on a fresh component, on inputs that have the registered length
    for every surface, every output array [compute] stores has the length
    registered for it, and every array [compute_partials] stores has as many
    entries as the registered row and column vectors, which are equal. *)
Theorem shapes_match_registration surfaces inputs c :
  setup surfaces (Component [] [] []) = (c, Ok tt) →
  (∀ name data, (name, data) ∈ surfaces →
     ∃ radius thickness,
       inputs !! tube_name name "radius" = Some radius ∧
       inputs !! tube_name name "thickness" = Some thickness ∧
       Z.of_nat (length radius) = n_elements data ∧
       Z.of_nat (length thickness) = n_elements data) →
  (∀ name shape, (name, shape) ∈ var_outputs c →
     ∃ a, (compute surfaces inputs ∅).1 !! name = Some a ∧
          Z.of_nat (length a) = shape) ∧
  (∀ of_ wrt rows cols, (of_, wrt, rows, cols) ∈ subjacs c →
     ∃ d, (compute_partials surfaces inputs ∅).1 !! (of_, wrt) = Some d ∧
          length d = length rows ∧ rows = cols).
Proof.
  intros Hsetup Hlen.
  assert (well_shaped surfaces inputs) as Hws.
  { intros name data Hin.
    destruct (Hlen name data Hin) as (radius & thickness & Hr & Ht & H1 & H2).
    exists radius, thickness. repeat (split; [done|]). lia. }
  destruct (setup_shapes surfaces _ c Hsetup) as (Ho & Hp).
  simpl in Ho, Hp. rewrite Ho, Hp. clear Ho Hp.
  destruct (compute_ok surfaces inputs ∅ Hws) as (outputs & -> & Hget).
  destruct (compute_partials_ok surfaces inputs ∅ Hws)
    as (partials & -> & Hpget).
  simpl. split.
  - intros name shape ([name' data] & Hhere & Hin)%list_elem_of_bind.
    destruct (Hlen name' data Hin) as (radius & thickness & Hr & Ht & H1 & H2).
    destruct (Hget name' data radius thickness Hin Hr Ht)
      as (HA & HIy & HIz & HJ).
    assert (length radius = length thickness) as Heq by lia.
    set_unfold in Hhere.
    destruct Hhere as [[= -> ->]|[[= -> ->]|[[= -> ->]|[[= -> ->]|[]]]]];
      eexists; (split; [eassumption|]); by rewrite length_zip_with_l_eq.
  - intros of_ wrt rows cols ([name' data] & Hhere & Hin)%list_elem_of_bind.
    destruct (Hlen name' data Hin) as (radius & thickness & Hr & Ht & H1 & H2).
    destruct (Hpget name' data radius thickness Hin Hr Ht)
      as (P1 & P2 & P3 & P4 & P5 & P6 & P7 & P8).
    assert (length radius = length thickness) as Heq by lia.
    assert (length radius = length (np_arange (n_elements data))) as Hdiag
      by (rewrite np_arange_length; lia).
    set_unfold in Hhere.
    destruct Hhere as [[= -> -> -> ->]|[[= -> -> -> ->]|[[= -> -> -> ->]|
      [[= -> -> -> ->]|[[= -> -> -> ->]|[[= -> -> -> ->]|[[= -> -> -> ->]|
      [[= -> -> -> ->]|[]]]]]]]]];
      eexists; (split; [eassumption|]);
      by rewrite length_zip_with_l_eq.
Qed.

Lemma shapes_match_registration_wing :
  (∀ name shape,
     (name, shape) ∈ var_outputs (setup wing (Component [] [] [])).1 →
     ∃ a, (compute wing (wing_inputs [1; 1; 1; 1] [1; 1; 1; 1]) ∅).1 !! name
            = Some a ∧
          Z.of_nat (length a) = shape) ∧
  (∀ of_ wrt rows cols,
     (of_, wrt, rows, cols) ∈ subjacs (setup wing (Component [] [] [])).1 →
     ∃ d, (compute_partials wing (wing_inputs [1; 1; 1; 1] [1; 1; 1; 1]) ∅).1
            !! (of_, wrt) = Some d ∧
          length d = length rows ∧ rows = cols).
Proof.
  apply (shapes_match_registration wing (wing_inputs [1; 1; 1; 1] [1; 1; 1; 1])
           (setup wing (Component [] [] [])).1).
  - vm_compute. reflexivity.
  - intros name data Hin. apply list_elem_of_singleton in Hin.
    injection Hin as -> ->. exists [1; 1; 1; 1], [1; 1; 1; 1].
    repeat split; reflexivity.
Defined.

(** X15. Surfaces with distinct names never share a variable: after a
    successful [setup] on a fresh component the registered input names are
    pairwise distinct, so are the registered output names and the registered
    (output, input) pairs, and no input name is also an output name. *)
Theorem registered_names_distinct surfaces c :
  setup surfaces (Component [] [] []) = (c, Ok tt) →
  NoDup surfaces.*1 →
  NoDup (var_inputs c).*1 ∧
  NoDup (var_outputs c).*1 ∧
  NoDup ((λ s, (s.1.1.1, s.1.1.2)) <$> subjacs c) ∧
  ∀ key, key ∈ (var_inputs c).*1 → key ∉ (var_outputs c).*1.
Proof.
  intros Hsetup Hnames.
  destruct (setup_names_fresh surfaces c Hsetup) as (-> & -> & ->).
  split; [|split; [|split]].
  - apply NoDup_bind; [| |done].
    + intros name1 name2 key _ _ (k1 & -> & Hk1)%list_elem_of_fmap
        (k2 & E & Hk2)%list_elem_of_fmap.
      by apply tube_name_eq in E as [? _].
    + intros name _. apply (NoDup_fmap_2 _).
      apply (bool_decide_unpack _). by vm_compute.
  - apply NoDup_bind; [| |done].
    + intros name1 name2 key _ _ (k1 & -> & Hk1)%list_elem_of_fmap
        (k2 & E & Hk2)%list_elem_of_fmap.
      by apply element_name_eq in E as [? _].
    + intros name _. apply (NoDup_fmap_2 _).
      apply (bool_decide_unpack _). by vm_compute.
  - apply NoDup_bind; [| |done].
    + intros name1 name2 pair _ _ (out1 & H1 & Hout1)%list_elem_of_bind
        (out2 & H2 & Hout2)%list_elem_of_bind.
      apply list_elem_of_bind in H1 as (wrt1 & H1 & Hwrt1).
      apply list_elem_of_bind in H2 as (wrt2 & H2 & Hwrt2).
      apply list_elem_of_singleton in H1 as ->.
      apply list_elem_of_singleton in H2 as [= E _].
      by apply element_name_eq in E as [? _].
    + intros name _.
      change (NoDup ((λ p, (element_name name p.1, tube_name name p.2)) <$>
                       (out ← ["A"; "Iy"; "Iz"; "J"];
                        wrt ← ["radius"; "thickness"]; [(out, wrt)]))).
      apply NoDup_fmap_2.
      * intros [o1 w1] [o2 w2] [= E1 E2]. simpl in *.
        by apply (inj _) in E1, E2; subst.
      * apply (bool_decide_unpack _). by vm_compute.
  - intros key (name1 & Hkey & _)%list_elem_of_bind
      (name2 & Hkey' & _)%list_elem_of_bind.
    apply list_elem_of_fmap in Hkey as (k1 & -> & Hk1).
    apply list_elem_of_fmap in Hkey' as (k2 & E & Hk2).
    by apply tube_name_not_element_name in E.
Qed.

Lemma registered_names_distinct_wing :
  NoDup (var_inputs (setup wing (Component [] [] [])).1).*1 ∧
  NoDup (var_outputs (setup wing (Component [] [] [])).1).*1 ∧
  NoDup ((λ s, (s.1.1.1, s.1.1.2))
           <$> subjacs (setup wing (Component [] [] [])).1) ∧
  ∀ key, key ∈ (var_inputs (setup wing (Component [] [] [])).1).*1 →
         key ∉ (var_outputs (setup wing (Component [] [] [])).1).*1.
Proof.
  apply (registered_names_distinct wing (setup wing (Component [] [] [])).1).
  - vm_compute. reflexivity.
  - apply (bool_decide_unpack _). by vm_compute.
Defined.

(** X16. A thickness array of length one is broadcast: for a surface whose
    radius has any length and whose thickness is [[t]], the loop body of
    [compute] returns normally and every output has the length of the
    radius, its entries being the formulas at that one thickness. *)
Theorem scalar_thickness_broadcast surfaces name data inputs outputs0 outputs1
    radius t :
  compute surfaces inputs outputs0 = (outputs1, Ok tt) →
  inputs !! tube_name name "radius" = Some radius →
  inputs !! tube_name name "thickness" = Some [t] →
  ∃ outputs,
    compute (surfaces ++ [(name, data)]) inputs outputs0 = (outputs, Ok tt) ∧
    outputs !! element_name name "A" = Some ((λ r, area r t) <$> radius) ∧
    outputs !! element_name name "Iy" = Some ((λ r, inertia r t) <$> radius) ∧
    outputs !! element_name name "Iz" = Some ((λ r, inertia r t) <$> radius) ∧
    outputs !! element_name name "J" = Some ((λ r, polar r t) <$> radius).
Proof.
  intros Hrun Hr Ht. eexists. split.
  - rewrite compute_app, Hrun. apply for_each_singleton.
    unfold mbind, M_bind, lift, getitem, setitem, modify. rewrite Hr, Ht.
    rewrite np_sub_scalar_r. unfold np_pow.
    rewrite !(np_sub_same_length _ _ (elementwise_scalar_length _ _ _ _)).
    unfold div_scalar, scalar_mul. rewrite <- !list_fmap_compose.
    rewrite !elementwise_scalar. reflexivity.
  - repeat split.
    + rewrite !lookup_insert_ne by name_ne. by rewrite lookup_insert_eq.
    + rewrite !lookup_insert_ne by name_ne. by rewrite lookup_insert_eq.
    + rewrite !lookup_insert_ne by name_ne. by rewrite lookup_insert_eq.
    + by rewrite lookup_insert_eq.
Qed.

Lemma scalar_thickness_broadcast_wing :
  ∃ outputs,
    compute ([] ++ [("wing", ∅)]) (wing_inputs [1; 2; 3] [/ 10]) ∅
      = (outputs, Ok tt) ∧
    outputs !! element_name "wing" "A"
      = Some ((λ r, area r (/ 10)) <$> [1; 2; 3]) ∧
    outputs !! element_name "wing" "Iy"
      = Some ((λ r, inertia r (/ 10)) <$> [1; 2; 3]) ∧
    outputs !! element_name "wing" "Iz"
      = Some ((λ r, inertia r (/ 10)) <$> [1; 2; 3]) ∧
    outputs !! element_name "wing" "J"
      = Some ((λ r, polar r (/ 10)) <$> [1; 2; 3]).
Proof.
  apply (scalar_thickness_broadcast [] "wing" ∅ (wing_inputs [1; 2; 3] [/ 10])
           ∅ ∅ [1; 2; 3] (/ 10)); reflexivity.
Defined.

(** X17. The thickness the run script builds from the radii [r]: on an
    empty [r] the script stops with [ValueError]; otherwise the thickness
    has the length of [r], all its entries are one value [m], [m] is a tenth
    of some radius, and no radius has a larger tenth. *)
Theorem uniform_thickness_spec (r : array) :
  match uniform_thickness r with
  | Raise e => r = [] ∧ e = ValueError
  | Ok thickness =>
      r ≠ [] ∧
      ∃ m, thickness = replicate (length r) m ∧
           (∃ j x, r !! j = Some x ∧ m = x / 10) ∧
           ∀ i x, r !! i = Some x → x / 10 <= m
  end.
Proof.
  destruct r as [|x r]; [done|].
  unfold uniform_thickness, div_scalar, np_max. rewrite fmap_cons.
  cbv beta iota zeta.
  destruct (foldl_Rmax_spec (x / 10) ((λ y, y / 10) <$> r))
    as (Hatt & Hge & Hall).
  split; [done|]. exists (foldl Rmax (x / 10) ((λ y, y / 10) <$> r)).
  split; [f_equal; cbn; by rewrite length_fmap|]. split.
  - destruct Hatt as [->|Hatt]; [by exists 0%nat, x|].
    apply list_elem_of_fmap in Hatt as (y & -> & Hy).
    apply list_elem_of_lookup in Hy as [j Hj]. by exists (S j), y.
  - intros [|i] y Hy; simpl in Hy.
    + by injection Hy as ->.
    + apply Hall. apply list_elem_of_fmap. exists y. split; [done|].
      apply list_elem_of_lookup. eauto.
Qed.

Example uniform_thickness_empty : uniform_thickness [] = Raise ValueError.
Proof. reflexivity. Qed.

Example uniform_thickness_three :
  uniform_thickness [2; 5; 3]
  = Ok (replicate 3 (Rmax (Rmax (2 / 10) (5 / 10)) (3 / 10))).
Proof. reflexivity. Qed.

End extras.

(** ** What [compute_partials] stores, in any arithmetic *)

Section generic_partials_facts.
Context {T : Type} `{arithmetic T}.
Local Open Scope ar_scope.
Implicit Types (surfaces : list surface) (inputs : gmap string (list T)).
Implicit Types (partials : gmap (string * string) (list T)).
Implicit Types (a b radius thickness : list T).











End generic_partials_facts.

(** ** The program at exact arithmetic and at binary64 *)

Section instances.

(** The methods of the first part are the program text at exact arithmetic. *)
Lemma compute_exact surfaces inputs :
  g_compute (T:=R) surfaces inputs = compute surfaces inputs.
Proof. reflexivity. Qed.

Lemma compute_partials_exact surfaces inputs :
  g_compute_partials (T:=R) surfaces inputs = compute_partials surfaces inputs.
Proof. reflexivity. Qed.


End instances.

Section binary64_values.
Import PrimFloat.
#[local] Set Warnings "-inexact-float".
Local Open Scope float_scope.
Local Open Scope ar_scope.



(** C6, as the claim states it, fails in binary64.  At radius 1 and
    thickness 1e-20 (so radius > thickness > 0) the inner radius
    [1 - 1e-20] rounds to 1, and all four stored outputs are 0. *)
Lemma compute_positive_fails_binary64 :
  let outputs := (g_compute wing (wing_inputs64 [1] [1e-20]) ∅).1 in
  (0 <? 1e-20) = true ∧ (1e-20 <? 1) = true ∧
  g_entry_of outputs "wing_element_A" 0 = Some 0 ∧
  g_entry_of outputs "wing_element_Iy" 0 = Some 0 ∧
  g_entry_of outputs "wing_element_Iz" 0 = Some 0 ∧
  g_entry_of outputs "wing_element_J" 0 = Some 0 ∧
  (0 <? 0) = false.
Proof. vm_compute. repeat split; reflexivity. Qed.



End binary64_values.
